(** * tbbrdet_api.misc: the quota-bounded process runner

    A shallow embedding of [run_subprocess], [monitor_disk_space],
    [check_available_node_space], [get_disk_usage] and [log_disk_usage]
    of [tbbrdet_api/misc.py], and the properties of the runner that the
    specification states about them.

    Conventions of the embedding.
    - Python [int]s are [Z].  Python [float]s are the rationals they
      denote ([Q]); [round(x, 2)] is [py_round2], round-half-to-even on
      the second decimal.  Every float the module handles is either the
      quotient of a byte total by [1024 ** 3], which is exact for totals
      below [2 ** 53], or a figure with two decimals, and such figures
      compare with each other and with integers as the rationals do.
    - The process-wide state the module reads and writes (the file tree,
      the output of [df], the clock, the module-level [stop_thread]
      event, the threads and child processes started so far, the text
      printed) is one record, [World], threaded through a state and
      exception monad.  The scan of the file tree is taken to succeed.
    - What the rest of the system does while the calling thread is blocked
      in [process.wait] (seconds passing, files being written, the child
      exiting, monitor threads waking up) is read from a tape of events
      held in the world, so that a theorem quantified over worlds is
      quantified over every such schedule.  The other statements of the
      calling thread are taken one after the other with nothing in
      between; what happens between two invocations is applied to the
      world with [env_run].
    - [process.terminate()] sends SIGTERM: a child with the default
      disposition dies of it at once, a child that ignores the signal
      runs on. *)

From Stdlib Require Import ZArith QArith Bool List String Lia Lqa.
From Stdlib Require Import Orders Mergesort Sorted Permutation.
Import ListNotations.

Local Open Scope Z_scope.

(** ** Numbers *)

(** Nearest integer, ties to the even one: the rounding rule of Python's
    built-in [round]. *)
Definition round_half_even (x : Q) : Z :=
  let n := Qnum x in
  let d := Zpos (Qden x) in
  let q := n / d in
  let r := n mod d in
  match (2 * r ?= d) with
  | Lt => q
  | Gt => q + 1
  | Eq => if Z.even q then q else q + 1
  end.

(** [round(x, 2)]. *)
Definition py_round2 (x : Q) : Q :=
  Qmake (round_half_even (x * inject_Z 100)) 100.

(** [x < y] on floats, as a boolean. *)
Definition Qlt_bool (x y : Q) : bool := negb (Qle_bool y x).

(** ** The file tree *)

(** A [pathlib.Path], as its components. *)
Definition Path := list string.

(** One directory entry: where it is, what [stat().st_size] gives for it,
    and whether [is_file()] holds. *)
Record Entry := mkEntry {
  e_path : Path;
  e_size : Z;
  e_is_file : bool
}.

Definition FileTree := list Entry.

(** [is_below folder p]: [p] lies strictly below [folder]. *)
Fixpoint is_below (folder p : Path) : bool :=
  match folder, p with
  | [], [] => false
  | [], _ :: _ => true
  | _ :: _, [] => false
  | a :: folder', b :: p' => String.eqb a b && is_below folder' p'
  end.

(** [folder.rglob('*')]: every entry below [folder], at any depth. *)
Definition rglob (folder : Path) (fs : FileTree) : list Entry :=
  filter (fun f => is_below folder (e_path f)) fs.

(** [sum(f.stat().st_size for f in folder.rglob('*') if f.is_file())]. *)
Definition total_bytes (folder : Path) (fs : FileTree) : Z :=
  fold_right Z.add 0 (map e_size (filter e_is_file (rglob folder fs))).

(** [total / (1024 ** 3)], the byte total in GB at full precision. *)
Definition exact_gb (folder : Path) (fs : FileTree) : Q :=
  inject_Z (total_bytes folder fs) / inject_Z (1024 ^ 3).

(** The figure [get_disk_usage] returns for a tree:
    [round(total / (1024 ** 3), 2)]. *)
Definition usage_gb (folder : Path) (fs : FileTree) : Q :=
  py_round2 (exact_gb folder fs).

(** ** Threads, child processes, the world *)

(** A thread running [monitor_disk_space(limit_gb, path_to_check)].
    [m_wake] is the time before which its current [time.sleep(3)] cannot
    return; [m_alive] is false once it has called [sys.exit()]. *)
Record Monitor := mkMonitor {
  m_limit : Q;
  m_path : Path;
  m_wake : Z;
  m_alive : bool
}.

Inductive ProcState :=
| Running
| Exited (returncode : Z)     (* no longer running, not waited for *)
| Reaped (returncode : Z).    (* waited for: [process.returncode] is set *)

(** A child started by [subprocess.Popen]. *)
Record Proc := mkProc {
  p_argv : list string;
  p_state : ProcState;
  p_stderr : string;
  p_ignores_sigterm : bool;
  p_sigterm_sent : bool
}.

(** What executing an argument vector gives: the program found there either
    keeps the default disposition of SIGTERM or ignores the signal. *)
Record Program := mkProgram {
  prog_ignores_sigterm : bool
}.

(** What the module prints or logs: the text, and the figures formatted
    into it. *)
Record LogLine := mkLog {
  log_text : string;
  log_figures : list Q
}.

(** What [int(subprocess.getoutput("df -h | grep 'overlay' | awk '{print
    $4}'").split("G")[0])] gives: the free space of the node in GB, or a
    ValueError with its message when the text is not an integer. *)
Inductive DfReading :=
| Readable (available_gb : Z)
| Unreadable (message : string).

(** What happens around the calling thread. *)
Inductive Event :=
| Tick                                             (* one second passes *)
| FsUpdate (fs : FileTree)                         (* files are written or removed *)
| DfUpdate (avail : DfReading)                     (* the node's free space changes *)
| ChildExit (pid : nat) (rc : Z) (err : string)    (* a running child exits *)
| MonitorWake (tid : nat).                         (* a monitor thread is scheduled *)

Record World := mkWorld {
  w_fs : FileTree;
  w_df : DfReading;
  w_programs : list string -> option Program;
  w_clock : Z;
  w_tape : list Event;
  stop_thread : bool;                (* the module-level [threading.Event] *)
  w_threads : list Monitor;
  w_procs : list Proc;
  w_out : list LogLine
}.

Definition set_fs fs (w : World) :=
  mkWorld fs (w_df w) (w_programs w) (w_clock w) (w_tape w) (stop_thread w)
          (w_threads w) (w_procs w) (w_out w).
Definition set_df df (w : World) :=
  mkWorld (w_fs w) df (w_programs w) (w_clock w) (w_tape w) (stop_thread w)
          (w_threads w) (w_procs w) (w_out w).
Definition set_clock t (w : World) :=
  mkWorld (w_fs w) (w_df w) (w_programs w) t (w_tape w) (stop_thread w)
          (w_threads w) (w_procs w) (w_out w).
Definition set_tape tp (w : World) :=
  mkWorld (w_fs w) (w_df w) (w_programs w) (w_clock w) tp (stop_thread w)
          (w_threads w) (w_procs w) (w_out w).
Definition set_stop b (w : World) :=
  mkWorld (w_fs w) (w_df w) (w_programs w) (w_clock w) (w_tape w) b
          (w_threads w) (w_procs w) (w_out w).
Definition set_threads ts (w : World) :=
  mkWorld (w_fs w) (w_df w) (w_programs w) (w_clock w) (w_tape w) (stop_thread w)
          ts (w_procs w) (w_out w).
Definition set_procs ps (w : World) :=
  mkWorld (w_fs w) (w_df w) (w_programs w) (w_clock w) (w_tape w) (stop_thread w)
          (w_threads w) ps (w_out w).
Definition set_out o (w : World) :=
  mkWorld (w_fs w) (w_df w) (w_programs w) (w_clock w) (w_tape w) (stop_thread w)
          (w_threads w) (w_procs w) o.

(** [l] with its [i]-th element replaced by [f] of it. *)
Fixpoint update_nth {A} (i : nat) (f : A -> A) (l : list A) : list A :=
  match l, i with
  | [], _ => []
  | x :: l', O => f x :: l'
  | x :: l', S i' => x :: update_nth i' f l'
  end.

(** ** Exceptions and the monad *)

Inductive QuotaPhase := BeforeStart | DuringRun.

Inductive Exn :=
| DiskSpaceExceeded (phase : QuotaPhase)
| TimeoutExpired (cmd : list string) (timeout : Z)
| HTTPException (reason : string)
| OSError.

Inductive Result (A : Type) :=
| Returns (a : A)
| Raises (e : Exn).
Arguments Returns {A} a.
Arguments Raises {A} e.

Definition M (A : Type) : Type := World -> Result A * World.

Definition ret {A} (a : A) : M A := fun w => (Returns a, w).
Definition raise {A} (e : Exn) : M A := fun w => (Raises e, w).
Definition bind {A B} (m : M A) (k : A -> M B) : M B :=
  fun w =>
    match m w with
    | (Returns a, w') => k a w'
    | (Raises e, w') => (Raises e, w')
    end.

(** [try: m except ...: h e], where [h] answers [None] for an exception
    that no [except] clause matches. *)
Definition try_except {A} (m : M A) (h : Exn -> option (M A)) : M A :=
  fun w =>
    match m w with
    | (Returns a, w') => (Returns a, w')
    | (Raises e, w') =>
        match h e with
        | Some handler => handler w'
        | None => (Raises e, w')
        end
    end.

Definition gets {A} (f : World -> A) : M A := fun w => (Returns (f w), w).
Definition modify (f : World -> World) : M unit := fun w => (Returns tt, f w).

Declare Scope py_scope.
Delimit Scope py_scope with py.
Notation "x <- m ;; k" := (bind m (fun x => k))
  (at level 61, m at next level, right associativity) : py_scope.
Notation "m ;; k" := (bind m (fun _ => k))
  (at level 61, right associativity) : py_scope.
Local Open Scope string_scope.
Local Open Scope Z_scope.
Local Open Scope py_scope.

(** ** What the module imports *)

(** [tbbrdet_api.configs] is not part of the sources at hand; the two
    constants of it that [misc.py] reads on the paths modelled here are
    taken as parameters. *)
Record Configs := mkConfigs {
  BASE_PATH : Path;
  LIMIT_GB : Z
}.

(** [print(...)], [logger.error(...)]. *)
Definition emit (text : string) (figures : list Q) : M unit :=
  modify (fun w => set_out (w_out w ++ [mkLog text figures])%list w).

(** [threading.Thread(target=monitor_disk_space, args=(limit_gb,
    path_to_check,), daemon=True).start()]: the new thread enters its loop
    and goes to sleep for three seconds.  Gives the thread's index. *)
Definition thread_start (limit_gb : Q) (path_to_check : Path) : M nat :=
  fun w =>
    let tid := List.length (w_threads w) in
    (Returns tid,
     set_threads (w_threads w ++ [mkMonitor limit_gb path_to_check (w_clock w + 3) true])%list w).

(** [subprocess.Popen(command, stdout=PIPE, stderr=PIPE, ...)]: OSError when
    the command cannot be executed, the new child's index otherwise. *)
Definition Popen (command : list string) : M nat :=
  fun w =>
    match w_programs w command with
    | None => (Raises OSError, w)
    | Some prog =>
        let pid := List.length (w_procs w) in
        (Returns pid,
         set_procs (w_procs w ++
                    [mkProc command Running EmptyString (prog_ignores_sigterm prog) false])%list w)
    end.

(** [process.terminate()]: nothing when the child has been waited for; a
    child that has exited is collected by the [poll()] that comes first;
    a running child is sent SIGTERM and dies of it unless it ignores
    the signal.  The dead child is not waited for. *)
Definition terminate_proc (p : Proc) : Proc :=
  match p_state p with
  | Reaped _ => p
  | Exited rc => mkProc (p_argv p) (Reaped rc) (p_stderr p) (p_ignores_sigterm p) (p_sigterm_sent p)
  | Running =>
      mkProc (p_argv p)
             (if p_ignores_sigterm p then Running else Exited (-15))
             (p_stderr p) (p_ignores_sigterm p) true
  end.

Definition terminate (pid : nat) : M unit :=
  modify (fun w => set_procs (update_nth pid terminate_proc (w_procs w)) w).

(** [process.communicate()], of which the caller keeps the captured
    standard error. *)
Definition communicate (pid : nat) : M string :=
  gets (fun w => match nth_error (w_procs w) pid with
                 | Some p => p_stderr p
                 | None => EmptyString
                 end).

(** [stop_thread.is_set()]. *)
Definition stop_thread_is_set : M bool := gets stop_thread.

(** ** The functions of [misc.py] *)

Section Misc.

Context (configs : Configs).

(** [get_disk_usage(folder)]. *)
Definition get_disk_usage (folder : Path) : M Q :=
  gets (fun w => usage_gb folder (w_fs w)).

(** [log_disk_usage(process_message)]; [get_disk_usage()] is called with
    its default folder, [configs.BASE_PATH]. *)
Definition log_disk_usage (process_message : string) : M unit :=
  (usage <- get_disk_usage (BASE_PATH configs) ;;
   emit (process_message ++ " --- Repository currently takes up {} GB.") [usage])%py.

(** [check_available_node_space(limit_gb)]. *)
Definition check_available_node_space (limit_gb : Z) : M Q :=
  (available_gb <-
     (df <- gets w_df ;;
      match df with
      | Readable available_gb => ret (Z.max (available_gb - 3) 0)
      | Unreadable message =>
          emit "ValueError: Node disk space not readable. Using provided limit of {} GB."
               [inject_Z limit_gb] ;;
          raise (HTTPException message)
      end) ;;
   current_gb <- get_disk_usage (BASE_PATH configs) ;;
   let leftover_gb := py_round2 (inject_Z limit_gb - current_gb) in
   if Qlt_bool leftover_gb (inject_Z available_gb) then
     ret (inject_Z limit_gb)
   else
     let new_limit_gb := py_round2 (current_gb + inject_Z available_gb) in
     emit ("Available disk space on node ({} GB) is less than the leftover deployment "
           ++ "space ({} GB) until the user-defined limit ({} GB) is reached. "
           ++ "Limit will be reduced to {} GB.")
          [inject_Z available_gb; leftover_gb; inject_Z limit_gb; new_limit_gb] ;;
     ret new_limit_gb)%py.

(** One trip of thread [tid] round the [while True] loop of
    [monitor_disk_space(limit_gb, path_to_check)], from the return of
    [time.sleep(3)] to the next call of it or to [sys.exit()].  Nothing
    happens if the thread has exited or is still asleep. *)
Definition monitor_disk_space (tid : nat) (w : World) : World :=
  match nth_error (w_threads w) tid with
  | None => w
  | Some m =>
      if m_alive m && (m_wake m <=? w_clock w) then
        let stored_gb := usage_gb (m_path m) (w_fs w) in
        if Qle_bool (m_limit m) stored_gb then          (* stored_gb >= limit_gb *)
          (* stop_thread.set(); sys.exit() *)
          set_threads
            (update_nth tid (fun m => mkMonitor (m_limit m) (m_path m) (m_wake m) false)
                        (w_threads w))
            (set_stop true w)
        else
          (* time.sleep(3) *)
          set_threads
            (update_nth tid (fun m => mkMonitor (m_limit m) (m_path m) (w_clock w + 3) true)
                        (w_threads w))
            w
      else w
  end.

(** The effect of one event on the world. *)
Definition env_step (ev : Event) (w : World) : World :=
  match ev with
  | Tick => set_clock (w_clock w + 1) w
  | FsUpdate fs => set_fs fs w
  | DfUpdate avail => set_df avail w
  | ChildExit pid rc err =>
      set_procs
        (update_nth pid
           (fun p => match p_state p with
                     | Running => mkProc (p_argv p) (Exited rc) err
                                         (p_ignores_sigterm p) (p_sigterm_sent p)
                     | _ => p
                     end)
           (w_procs w))
        w
  | MonitorWake tid => monitor_disk_space tid w
  end.

Definition env_run (evs : list Event) (w : World) : World :=
  fold_left (fun w ev => env_step ev w) evs w.

(** The exit code [process.wait] can collect, if the child is no longer
    running. *)
Definition exit_code (pid : nat) (w : World) : option Z :=
  match nth_error (w_procs w) pid with
  | Some p => match p_state p with
              | Running => None
              | Exited rc => Some rc
              | Reaped rc => Some rc
              end
  | None => None
  end.

Definition reap (pid : nat) (rc : Z) (w : World) : World :=
  set_procs
    (update_nth pid
       (fun p => mkProc (p_argv p) (Reaped rc) (p_stderr p)
                        (p_ignores_sigterm p) (p_sigterm_sent p))
       (w_procs w))
    w.

(** The calling thread blocked in [process.wait(timeout)]: the events of the
    tape happen one after the other until the child has exited, which gives
    its exit code, or the deadline has passed, which gives [None].  When
    the tape is used up nothing else happens until the deadline. *)
Fixpoint wait_events (pid : nat) (deadline : Z) (tape : list Event) (w : World)
  : option Z * World :=
  match exit_code pid w with
  | Some rc => (Some rc, reap pid rc (set_tape tape w))
  | None =>
      if deadline <=? w_clock w then (None, set_tape tape w)
      else
        match tape with
        | [] => (None, set_tape [] (set_clock deadline w))
        | ev :: tape' => wait_events pid deadline tape' (env_step ev w)
        end
  end.

(** [process.wait(timeout=timeout)]. *)
Definition process_wait (pid : nat) (timeout : Z) : M Z :=
  fun w =>
    match wait_events pid (w_clock w + timeout) (w_tape w) w with
    | (Some return_code, w') => (Returns return_code, w')
    | (None, w') =>
        let cmd := match nth_error (w_procs w') pid with
                   | Some p => p_argv p
                   | None => []
                   end in
        (Raises (TimeoutExpired cmd timeout), w')
    end.

(** Whether child [pid], running when the wait begins, exits before
    [timeout] seconds have passed on the tape. *)
Fixpoint exits_in_time (pid : nat) (timeout : Z) (tape : list Event) : bool :=
  if timeout <=? 0 then false
  else
    match tape with
    | [] => false
    | Tick :: tape' => exits_in_time pid (timeout - 1) tape'
    | ChildExit pid' _ _ :: tape' =>
        if Nat.eqb pid' pid then true else exits_in_time pid timeout tape'
    | _ :: tape' => exits_in_time pid timeout tape'
    end.

(** [" ".join(command)]. *)
Definition join_command (command : list string) : string :=
  String.concat " " command.

(** [run_subprocess(command, process_message, limit_gb, path_to_check,
    timeout)].  The two [except] clauses catch what is raised once
    [process] is bound, so the [try] is entered here with [process] in hand;
    an exception of [Popen] matches neither clause and propagates as it
    does in the source. *)
Definition run_subprocess (command : list string) (process_message : string)
    (limit_gb : Z) (path_to_check : Path) (timeout : Z) : M unit :=
  (log_disk_usage ("Begin: " ++ process_message) ;;
   let str_command := join_command command in
   (* get absolute limit by comparing to remaining available space on node *)
   limit_gb <- check_available_node_space limit_gb ;;
   usage <- get_disk_usage path_to_check ;;
   if Qlt_bool limit_gb usage then                    (* usage > limit_gb *)
     log_disk_usage ("FAILED: " ++ process_message) ;;
     emit ("Disk space limit of {} GB exceeded before " ++ process_message
           ++ " subprocess can start!") [limit_gb] ;;
     raise (DiskSpaceExceeded BeforeStart)
   else
     (* monitor disk space usage in the background *)
     monitor_thread <- thread_start limit_gb path_to_check ;;
     emit ("Running " ++ process_message ++ " command: " ++ str_command) [] ;;
     process <- Popen command ;;
     try_except
       (return_code <- process_wait process timeout ;;
        is_set <- stop_thread_is_set ;;
        if is_set : bool then
          log_disk_usage ("FAILED: " ++ process_message) ;;
          raise (DiskSpaceExceeded DuringRun)
        else if return_code =? 0 then
          log_disk_usage ("Finished: " ++ process_message)
        else
          err <- communicate process ;;
          emit ("Error while running " ++ str_command ++ " for " ++ process_message
                ++ ". Terminated with return code {}.") [inject_Z return_code] ;;
          terminate process ;;
          raise (HTTPException err))
       (fun e =>
          match e with
          | TimeoutExpired _ _ =>
              Some (terminate process ;;
                    emit ("Timeout during " ++ process_message ++ " while running "
                          ++ str_command ++ " {} seconds were exceeded.")
                         [inject_Z timeout] ;;
                    raise e)
          | DiskSpaceExceeded _ =>
              Some (terminate process ;;
                    emit ("Disk space exceeded during " ++ process_message
                          ++ " while running " ++ str_command) [] ;;
                    raise e)
          | _ => None
          end))%py.

(** The defaults of [run_subprocess]: [limit_gb=configs.LIMIT_GB],
    [path_to_check=configs.BASE_PATH], [timeout=500]. *)
Definition default_timeout : Z := 500.

Definition run_subprocess_defaults (command : list string) (process_message : string) : M unit :=
  run_subprocess command process_message (LIMIT_GB configs) (BASE_PATH configs) default_timeout.

End Misc.

(** ** The resolver as the specification words it

    [available = freeSpace - buffer], [remainingBudget = requestedQuota -
    alreadyUsed]; if [remainingBudget < available] the requested quota is
    retained, otherwise the quota is shrunk to [alreadyUsed + available]. *)
Definition resolve_spec (requestedQuota alreadyUsed available : Q) : Q :=
  let remainingBudget := (requestedQuota - alreadyUsed)%Q in
  if Qlt_bool remainingBudget available then requestedQuota
  else (alreadyUsed + available)%Q.


(** ** Notions used in the statements *)

(** Figures with two decimals, which [round(_, 2)] leaves as they are. *)
Definition two_decimals (x : Q) : Prop := exists k, (x == Qmake k 100)%Q.

(** The static part of a child: what [Popen] fixed and whether SIGTERM was
    sent to it. *)
Definition same_child (p0 p : Proc) : Prop :=
  p_argv p = p_argv p0 /\ p_ignores_sigterm p = p_ignores_sigterm p0 /\
  p_sigterm_sent p = p_sigterm_sent p0.

Definition has_child (pid : nat) (p0 : Proc) (w : World) : Prop :=
  exists p, nth_error (w_procs w) pid = Some p /\ same_child p0 p.

(** Thread [tid] watches [path] against [L], and if it has exited the flag
    is set: a monitor thread ends in one way only, by observing a breach. *)
Definition monitor_inv (tid : nat) (L : Q) (path : Path) (w : World) : Prop :=
  exists m, nth_error (w_threads w) tid = Some m /\
            m_limit m = L /\ m_path m = path /\
            (m_alive m = false -> stop_thread w = true).

(** The world when the calling thread enters [process.wait]: the monitor
    thread and the child have been added, nothing else has moved. *)
Definition launched (w w1 : World) (command : list string) (prog : Program)
    (L : Q) (path_to_check : Path) : Prop :=
  w_procs w1 = (w_procs w ++
                [mkProc command Running EmptyString (prog_ignores_sigterm prog) false])%list /\
  w_threads w1 = (w_threads w ++ [mkMonitor L path_to_check (w_clock w + 3) true])%list /\
  w_fs w1 = w_fs w /\ w_df w1 = w_df w /\ w_programs w1 = w_programs w /\
  w_clock w1 = w_clock w /\ w_tape w1 = w_tape w /\ stop_thread w1 = stop_thread w.

(** The world once [process.terminate()] has been called on child [pid] and
    the failure has been logged. *)
Definition terminated (pid : nat) (w2 w' : World) : Prop :=
  exists out, w' = set_out out (set_procs (update_nth pid terminate_proc (w_procs w2)) w2).

(** ** A deployment to run the functions on *)

Module Scenario.

Definition GiB : Z := 1024 ^ 3.
Definition MiB : Z := 1024 ^ 2.

Definition configs : Configs := mkConfigs ["srv"; "app"] 20.
Definition data : Path := ["srv"; "app"; "data"].
Definition tar : list string :=
  ["tar"; "-I"; "zstd"; "-xf"; "images.tar.zst"; "-C"; "data"].

Definition file (path : Path) (size : Z) : Entry := mkEntry path size true.
Definition dir (path : Path) : Entry := mkEntry path 4096 false.

(** A tree with [data_bytes] of images below [data] and [model_bytes] of
    checkpoints beside it, all of it below [configs.BASE_PATH]. *)
Definition tree (data_bytes model_bytes : Z) : FileTree :=
  [dir data; file (data ++ ["images.bin"])%list data_bytes;
   dir ["srv"; "app"; "models"];
   file ["srv"; "app"; "models"; "latest.pth"] model_bytes].

(** A fresh process: every command can be executed, [stubborn] says whether
    the programs ignore SIGTERM, [free_gb] is what [df] reports, [tape] what
    is going to happen. *)
Definition world (fs : FileTree) (free_gb : Z) (stubborn : bool) (tape : list Event) : World :=
  mkWorld fs (Readable free_gb) (fun _ => Some (mkProgram stubborn)) 0 tape false [] [] [].

(** [run_subprocess(tar, "unpacking", limit_gb, data, timeout)], a call
    of the kind [extract_zst] makes. *)
Definition run (limit_gb : Z) (timeout : Z) (w : World) : Result unit * World :=
  run_subprocess configs tar "unpacking" limit_gb data timeout w.



(** Three seconds in, the images have grown to 21 GB and the monitor
    thread is scheduled; the child exits with code 0 a second later. *)
Definition breach_then_exit : list Event :=
  [Tick; Tick; Tick; FsUpdate (tree (21 * GiB) 0); MonitorWake 0; Tick; ChildExit 0 0 ""].

Definition breached : World := world (tree (2 * GiB) 0) 100 false breach_then_exit.

(** The same, in a process that goes on to a second extraction. *)
Definition first_extraction : World :=
  world (tree (2 * GiB) 0) 100 false (breach_then_exit ++ [Tick; ChildExit 1 0 ""])%list.

(** The process after that first extraction, once the images have been
    cleaned up to 2 GB again; the child of the next extraction is going
    to exit with code 0 after a second. *)
Definition after_breach : World :=
  env_run [FsUpdate (tree (2 * GiB) 0); Tick] (snd (run 20 500 first_extraction)).

(** A child that is still running after six seconds. *)
Definition hung (stubborn : bool) : World :=
  world (tree (2 * GiB) 0) 100 stubborn [Tick; Tick; Tick; Tick; Tick; Tick; ChildExit 0 0 ""].

(** A node with 2 GB free, and half a GB of images. *)
Definition small_node : World := world (tree (GiB / 2) 0) 2 false [].

(** 2 GB of images and 10 GB of checkpoints, on a node with 8 GB free. *)
Definition shared : World :=
  world (tree (2 * GiB) (10 * GiB)) 8 false [Tick; ChildExit 0 0 ""].

(** One MB more than one GB of images. *)
Definition just_over : World :=
  world (tree (GiB + MiB) 0) 100 false [Tick; ChildExit 0 0 ""].

(** 20 GB of images, to the byte. *)
Definition at_limit : World :=
  world (tree (20 * GiB) 0) 100 false [Tick; Tick; Tick; MonitorWake 0; Tick; ChildExit 0 0 ""].

(** The same three seconds after the launch, the monitor thread about to
    take its first sample. *)
Definition first_sample : World :=
  mkWorld (tree (20 * GiB) 0) (Readable 100) (fun _ => Some (mkProgram false)) 3 [] false
          [mkMonitor 20 data 3 true] [mkProc tar Running "" false false] [].


(** The child of an extraction once it has been waited for with exit code
    0, once it has died of SIGTERM, and while it runs on having ignored
    SIGTERM. *)
Definition collected : Proc := mkProc tar (Reaped 0) "" false false.
Definition killed : Proc := mkProc tar (Exited (-15)) "" false true.
Definition survivor : Proc := mkProc tar Running "" true true.

Definition breached_run := run 20 500 breached.
Definition first_run := run 20 500 first_extraction.
Definition second_run := run 20 500 after_breach.
Definition hung_run (stubborn : bool) := run 20 5 (hung stubborn).
Definition shared_run := run 20 500 shared.
Definition just_over_run := run 1 500 just_over.
Definition at_limit_run := run 20 500 at_limit.

End Scenario.

(** ** Folders inside folders *)


(** No entry of the tree has a negative [st_size]. *)
Definition sizes_nonnegative (fs : FileTree) : Prop :=
  Forall (fun f => 0 <= e_size f) fs.

(** What [process.communicate()] gives for the standard error of child
    [pid]. *)
Definition stderr_of (pid : nat) (w : World) : string :=
  match nth_error (w_procs w) pid with
  | Some p => p_stderr p
  | None => EmptyString
  end.


(** ** Paths as text, and the removal of a file *)

Fixpoint path_eqb (p q : Path) : bool :=
  match p, q with
  | [], [] => true
  | a :: p', b :: q' => String.eqb a b && path_eqb p' q'
  | _, _ => false
  end.

(** [str(path)] for an absolute path: every component after a slash, the
    root as a lone slash. *)
Definition path_str (p : Path) : string :=
  match p with
  | [] => "/"
  | _ => String.concat "" (map (fun c => "/" ++ c) p)
  end.

(** [path.name], the last component. *)
Definition path_name (p : Path) : string := last p "".

(** [path.parent]. *)
Definition path_parent (p : Path) : Path := removelast p.

(** The entries of the tree at [p]. *)
Definition entries_at (p : Path) (fs : FileTree) : list Entry :=
  filter (fun f => path_eqb (e_path f) p) fs.

(** [path.unlink()].  [removable] tells the entries [os.unlink] removes
    (files, links) from those it refuses (directories).  FileNotFoundError
    and the errors on a directory are OSErrors. *)
Definition unlink (removable : Entry -> bool) (p : Path) : M unit :=
  fun w =>
    match entries_at p (w_fs w) with
    | [] => (Raises OSError, w)
    | f :: _ =>
        if removable f then
          (Returns tt, set_fs (filter (fun f => negb (path_eqb (e_path f) p)) (w_fs w)) w)
        else (Raises OSError, w)
    end.

(** ** [extract_zst] *)

(** The constants of [tbbrdet_api.configs] that [extract_zst] reads. *)
Record DataConfigs := mkDataConfigs {
  DATA_PATH : Path;
  DATA_LIMIT_GB : Z
}.

Section ExtractZst.

Context (configs : Configs) (data_configs : DataConfigs) (removable : Entry -> bool).

(** The command of one archive. *)
Definition tar_command (zst_path : Path) : list string :=
  ["tar"; "-I"; "zstd"; "-xf"; path_str zst_path; "-C"; path_str (DATA_PATH data_configs)].

(** One extraction: the call of [run_subprocess] in the loop, with the
    default timeout. *)
Definition unpack (zst_path : Path) : M unit :=
  run_subprocess configs (tar_command zst_path)
    ("unpacking '" ++ path_name zst_path ++ "'")
    (DATA_LIMIT_GB data_configs) (DATA_PATH data_configs) default_timeout.

(** The [if] that follows in the loop: check if zst file is in
    config.DATA_PATH, if so delete to save space. *)
Definition cleanup (zst_path : Path) : M unit :=
  if is_below (DATA_PATH data_configs) zst_path then
    (emit ("Removing .tar.zst file '" ++ path_name zst_path
           ++ "' after extraction to save storage space.") [] ;;
     unlink removable zst_path)%py
  else ret tt.

(** The [for] loop of [extract_zst], over the paths that
    [Path(zst_folder).glob("**/*.tar.zst")] yields, in the order in which it
    yields them. *)
Fixpoint extract_zst_loop (zst_paths : list Path) : M unit :=
  match zst_paths with
  | [] => ret tt
  | zst_path :: rest =>
      (unpack zst_path ;;
       cleanup zst_path ;;
       extract_zst_loop rest)%py
  end.

(** [extract_zst(zst_folder)], given what the glob on [zst_folder] yields. *)
Definition extract_zst (zst_paths : list Path) : M unit :=
  (log_disk_usage configs "Begin extracting .tar.zst files" ;;
   extract_zst_loop zst_paths)%py.

End ExtractZst.

(** ** [ls_folders] *)

(** [sorted] on strings: a merge sort on the order of the code points. *)
Module StringOrder <: Orders.TotalLeBool.
Definition t := string.
Definition leb := String.leb.
Definition leb_total : forall s1 s2, leb s1 s2 = true \/ leb s2 s1 = true :=
  String.leb_total.
End StringOrder.

Module StringSort := Mergesort.Sort StringOrder.

Definition py_sorted (l : list string) : list string := StringSort.sort l.

(** [set] of strings, of which only the members matter once it is sorted. *)
Definition py_set (l : list string) : list string := nodup string_dec l.

Section LsFolders.

(** What [pathlib] says of an entry of [directory] and a pattern: whether
    the path of the entry, taken from [directory], matches [**/pattern]. *)
Context (rglob_match : string -> Path -> bool).

(** [Path(directory).rglob(pattern)]. *)
Definition rglob_pattern (directory : Path) (pattern : string) (fs : FileTree) : list Entry :=
  filter (fun f => is_below directory (e_path f)
                   && rglob_match pattern (skipn (List.length directory) (e_path f)))
         fs.

(** [ls_folders(directory, pattern)]. *)
Definition ls_folders (directory : Path) (pattern : string) : M (list string) :=
  (emit ("Scanning through '" ++ path_str directory ++ "' with pattern '"
         ++ pattern ++ "'") [] ;;
   gets (fun w =>
           py_sorted
             (py_set (map (fun d => path_str (path_parent (e_path d)))
                          (rglob_pattern directory pattern (w_fs w))))))%py.

End LsFolders.

(** ** [_fields_to_dict] *)

(** The values a field of a schema carries. *)
#[warnings="-register-all"]
Inductive PyValue :=
| PyNone
| PyMissing                      (* [marshmallow.missing] *)
| PyBool (b : bool)
| PyInt (n : Z)
| PyFloat (x : Q)
| PyStr (s : string)
| PyList (l : list PyValue).

Inductive PyType :=
| NoneType | MissingType | BoolType | IntType | FloatType | StrType | ListType.

(** [type(v)]. *)
Definition py_type (v : PyValue) : PyType :=
  match v with
  | PyNone => NoneType
  | PyMissing => MissingType
  | PyBool _ => BoolType
  | PyInt _ => IntType
  | PyFloat _ => FloatType
  | PyStr _ => StrType
  | PyList _ => ListType
  end.

(** A [dict] with strings as keys, in the order of insertion. *)
Definition Dict (A : Type) : Type := list (string * A).

(** [d.get(key)]: [None] where [d[key]] raises KeyError. *)
Fixpoint dict_get {A} (key : string) (d : Dict A) : option A :=
  match d with
  | [] => None
  | (k, x) :: d' => if String.eqb k key then Some x else dict_get key d'
  end.

(** [d[key] = x]: the value is replaced where the key is, the key is added
    at the end if it is new. *)
Fixpoint dict_set {A} (key : string) (x : A) (d : Dict A) : Dict A :=
  match d with
  | [] => [(key, x)]
  | (k, y) :: d' => if String.eqb k key then (k, x) :: d' else (k, y) :: dict_set key x d'
  end.

(** What [_fields_to_dict] reads of a marshmallow field: [v.missing],
    [v.required] if the attribute is there, [v.metadata]. *)
Record Field := mkField {
  f_missing : PyValue;
  f_required : option bool;
  f_metadata : Dict PyValue
}.

(** The [param] of one field: its keys "default", "type", "required" and
    "help". *)
Record Param := mkParam {
  param_default : PyValue;
  param_type : PyType;
  param_required : bool;
  param_help : PyValue
}.

Section FieldsToDict.

(** How an f-string formats a value. *)
Context (py_format : PyValue -> string).

(** The body of the loop for one field: [inl key] for a KeyError. *)
Definition field_param (v : Field) : string + Param :=
  match dict_get "description" (f_metadata v) with
  | None => inl "description"
  | Some v_help =>
      let v_help :=
        match dict_get "enum" (f_metadata v) with
        | Some enum => PyStr (py_format v_help ++ ". Choices: " ++ py_format enum)
        | None => v_help
        end in
      inr (mkParam (f_missing v) (py_type (f_missing v))
                   (match f_required v with Some b => b | None => false end)
                   v_help)
  end.

Fixpoint fields_to_dict_loop (items : list (string * Field)) (dict_out : Dict Param)
  : string + Dict Param :=
  match items with
  | [] => inr dict_out
  | (k, v) :: rest =>
      match field_param v with
      | inl key => inl key
      | inr param => fields_to_dict_loop rest (dict_set k param dict_out)
      end
  end.

(** [_fields_to_dict(fields_in)]. *)
Definition _fields_to_dict (fields_in : Dict Field) : string + Dict Param :=
  fields_to_dict_loop fields_in [].

End FieldsToDict.

(** ** Archives, checkpoints and a schema on the deployment *)

Module Archives.

(** [configs.DATA_PATH] and [configs.DATA_LIMIT_GB]. *)
Definition data_configs : DataConfigs := mkDataConfigs Scenario.data 15.

(** [os.unlink] removes files and refuses directories. *)
Definition removable (f : Entry) : bool := e_is_file f.

(** Two archives in the data folder, one on a mounted volume. *)
Definition first : Path := ["srv"; "app"; "data"; "train.tar.zst"].
Definition second : Path := ["srv"; "app"; "data"; "test.tar.zst"].
Definition mounted : Path := ["mnt"; "images.tar.zst"].

(** 2 GB of images, checkpoints of two models, and the archives. *)
Definition tree : FileTree :=
  [Scenario.dir Scenario.data;
   Scenario.file ["srv"; "app"; "data"; "images.bin"] (2 * Scenario.GiB);
   Scenario.file first Scenario.GiB;
   Scenario.file second Scenario.GiB;
   Scenario.file mounted Scenario.GiB;
   Scenario.dir ["srv"; "app"; "models"];
   Scenario.dir ["srv"; "app"; "models"; "swin"];
   Scenario.file ["srv"; "app"; "models"; "swin"; "epoch_1.pth"] Scenario.GiB;
   Scenario.file ["srv"; "app"; "models"; "swin"; "latest.pth"] Scenario.GiB;
   Scenario.dir ["srv"; "app"; "models"; "resnet"];
   Scenario.file ["srv"; "app"; "models"; "resnet"; "latest.pth"] Scenario.GiB].

(** Both children exit with code 0, a second after their start. *)
Definition both_fine : World :=
  Scenario.world tree 100 false [Tick; ChildExit 0 0 ""; Tick; ChildExit 1 0 ""].

(** The second archive is damaged. *)
Definition second_damaged : World :=
  Scenario.world tree 100 false
    [Tick; ChildExit 0 0 ""; Tick; ChildExit 1 2 "tar: Unexpected EOF in archive"].

(** A node on which [df] prints the free space in terabytes. *)
Definition terabytes : World :=
  mkWorld tree (Unreadable "invalid literal for int() with base 10: '1.2T'")
          (fun _ => Some (mkProgram false)) 0 [Tick; ChildExit 0 0 ""] false [] [] [].

(** A node without [tar]. *)
Definition no_tar : World :=
  mkWorld tree (Readable 100) (fun _ => None) 0 [] false [] [] [].


(** The extractions. *)
Definition extract (zst_paths : list Path) (w : World) : Result unit * World :=
  extract_zst Scenario.configs data_configs removable zst_paths w.
Definition extract_loop (zst_paths : list Path) (w : World) : Result unit * World :=
  extract_zst_loop Scenario.configs data_configs removable zst_paths w.
Definition unpack_one (zst_path : Path) (w : World) : Result unit * World :=
  unpack Scenario.configs data_configs zst_path w.

Definition first_done : World := snd (extract_loop [first] second_damaged).
Definition first_unpacked : World := snd (unpack_one first both_fine).

(** [*latest.pth] on the names of the example: the last component ends in
    [latest.pth]. *)
Definition latest_pth (pattern : string) (relative : Path) : bool :=
  String.eqb pattern "*latest.pth" &&
  match String.index 0 "latest.pth" (last relative "") with
  | Some n => Nat.eqb (n + 10) (String.length (last relative ""))
  | None => false
  end.

(** The text of a string in an f-string; the example formats nothing
    else but lists of strings. *)
Definition format_text (v : PyValue) : string :=
  match v with
  | PyStr s => s
  | PyList l =>
      "[" ++ String.concat ", " (map (fun x => match x with
                                               | PyStr s => "'" ++ s ++ "'"
                                               | _ => ""
                                               end) l) ++ "]"
  | _ => ""
  end.

(** Two fields of the kind [TrainArgsSchema] has. *)
Definition model : Field :=
  mkField PyMissing (Some true)
          [("enum", PyList [PyStr "mask_rcnn_swin-t"; PyStr "mask_rcnn_r50"]);
           ("description", PyStr "Model name")].
Definition epochs : Field :=
  mkField (PyInt 4) (Some false) [("description", PyStr "Number of epochs to train.")].

Definition schema : Dict Field := [("model", model); ("epochs", epochs)].

Definition schema_dict : Dict Param :=
  [("model", mkParam PyMissing MissingType true
               (PyStr "Model name. Choices: ['mask_rcnn_swin-t', 'mask_rcnn_r50']"));
   ("epochs", mkParam (PyInt 4) IntType false (PyStr "Number of epochs to train."))].

End Archives.

(** * Properties *)

(** ** Rounding and comparison *)

Lemma Qlt_bool_iff (x y : Q) : Qlt_bool x y = true <-> (x < y)%Q.
Proof.
  unfold Qlt_bool. rewrite negb_true_iff.
  split; intro H.
  - apply Qnot_le_lt. intro Hle. apply Qle_bool_iff in Hle. congruence.
  - destruct (Qle_bool y x) eqn:E; [|reflexivity].
    apply Qle_bool_iff in E. exfalso. exact (Qlt_not_le _ _ H E).
Qed.

Lemma Qlt_bool_false_iff (x y : Q) : Qlt_bool x y = false <-> (y <= x)%Q.
Proof.
  unfold Qlt_bool. rewrite negb_false_iff. apply Qle_bool_iff.
Qed.

Lemma round_half_even_inject (x : Q) (m : Z) :
  (x == inject_Z m)%Q -> round_half_even x = m.
Proof.
  unfold Qeq, round_half_even. cbn [Qnum Qden inject_Z].
  rewrite Z.mul_1_r. intros ->.
  rewrite Z.div_mul by discriminate.
  rewrite Z.mod_mul by discriminate.
  reflexivity.
Qed.

Lemma py_round2_two_decimals (x : Q) (k : Z) :
  (x == Qmake k 100)%Q -> py_round2 x = Qmake k 100.
Proof.
  intro H. unfold py_round2. f_equal.
  apply round_half_even_inject. rewrite H.
  unfold Qeq. cbn. lia.
Qed.


Lemma py_round2_id (x : Q) : two_decimals x -> (py_round2 x == x)%Q.
Proof.
  intros (k & H). rewrite (py_round2_two_decimals x k H). symmetry. exact H.
Qed.

Lemma two_decimals_inject (n : Z) : two_decimals (inject_Z n).
Proof. exists (100 * n). unfold Qeq, inject_Z. cbn [Qnum Qden]. lia. Qed.

Lemma two_decimals_plus (x y : Q) : two_decimals x -> two_decimals y -> two_decimals (x + y).
Proof.
  intros (a & Ha) (b & Hb). exists (a + b). rewrite Ha, Hb.
  unfold Qeq, Qplus. cbn [Qnum Qden]. lia.
Qed.

Lemma two_decimals_minus (x y : Q) : two_decimals x -> two_decimals y -> two_decimals (x - y).
Proof.
  intros (a & Ha) (b & Hb). exists (a - b). rewrite Ha, Hb.
  unfold Qeq, Qminus, Qplus, Qopp. cbn [Qnum Qden]. lia.
Qed.

Lemma usage_gb_two_decimals (folder : Path) (fs : FileTree) :
  two_decimals (usage_gb folder fs).
Proof. unfold usage_gb, py_round2. eexists. reflexivity. Qed.


Ltac simp_world :=
  cbn [fst snd w_fs w_df w_programs w_clock w_tape stop_thread w_threads w_procs w_out
       set_fs set_df set_clock set_tape set_stop set_threads set_procs set_out].

Ltac unfold_run :=
  unfold run_subprocess, log_disk_usage, check_available_node_space, get_disk_usage,
    thread_start, Popen, process_wait, stop_thread_is_set, communicate, terminate,
    emit, try_except, bind, ret, raise, gets, modify;
  simp_world.


(** ** Lists updated in place *)


Lemma nth_error_update_nth_eq {A} (f : A -> A) (l : list A) (i : nat) :
  nth_error (update_nth i f l) i = option_map f (nth_error l i).
Proof.
  revert i. induction l as [|x l IH]; intros [|i]; cbn; auto.
Qed.

Lemma nth_error_update_nth_neq {A} (f : A -> A) (l : list A) (i j : nat) :
  i <> j -> nth_error (update_nth i f l) j = nth_error l j.
Proof.
  revert i j. induction l as [|x l IH]; intros [|i] [|j] Hij; cbn; auto;
    try congruence.
Qed.

Lemma nth_error_update_nth {A} (f : A -> A) (l : list A) (i j : nat) (x : A) :
  nth_error (update_nth i f l) j = Some x ->
  exists y, nth_error l j = Some y /\ (x = y \/ (i = j /\ x = f y)).
Proof.
  intro H. destruct (Nat.eq_dec i j) as [->|Hij].
  - rewrite nth_error_update_nth_eq in H.
    destruct (nth_error l j) as [y|]; [|discriminate].
    injection H as <-. eauto.
  - rewrite nth_error_update_nth_neq in H by assumption. eauto.
Qed.

Lemma nth_error_snoc {A} (l : list A) (x : A) :
  nth_error (l ++ [x]) (List.length l) = Some x.
Proof.
  induction l as [|y l IH]; cbn; auto.
Qed.

(** ** The events *)

Section Events.

(** A monitor thread touches the threads and the flag, nothing else. *)
Lemma monitor_disk_space_frame (tid : nat) (w : World) :
  let w' := monitor_disk_space tid w in
  w_fs w' = w_fs w /\ w_df w' = w_df w /\ w_programs w' = w_programs w /\
  w_clock w' = w_clock w /\ w_tape w' = w_tape w /\ w_procs w' = w_procs w /\
  w_out w' = w_out w.
Proof.
  unfold monitor_disk_space.
  destruct (nth_error (w_threads w) tid) as [m|]; [|cbn; tauto].
  destruct (m_alive m && (m_wake m <=? w_clock w)); [|cbn; tauto].
  destruct (Qle_bool _ _); cbn; tauto.
Qed.

(** The flag is only ever set. *)
Lemma monitor_disk_space_keeps_flag (tid : nat) (w : World) :
  stop_thread w = true -> stop_thread (monitor_disk_space tid w) = true.
Proof.
  unfold monitor_disk_space. intro H.
  destruct (nth_error (w_threads w) tid) as [m|]; [|assumption].
  destruct (m_alive m && (m_wake m <=? w_clock w)); [|assumption].
  destruct (Qle_bool _ _); cbn; auto.
Qed.

Lemma env_step_keeps_flag (ev : Event) (w : World) :
  stop_thread w = true -> stop_thread (env_step ev w) = true.
Proof.
  destruct ev; cbn; auto using monitor_disk_space_keeps_flag.
Qed.

Lemma env_run_keeps_flag (evs : list Event) (w : World) :
  stop_thread w = true -> stop_thread (env_run evs w) = true.
Proof.
  revert w. induction evs as [|ev evs IH]; intros w H; cbn; auto.
  apply IH, env_step_keeps_flag, H.
Qed.

(** What is kept by every move the world makes while the calling thread
    waits is kept by the wait. *)
Lemma wait_events_preserves (P : World -> Prop) (pid : nat) (deadline : Z) :
  (forall ev w, P w -> P (env_step ev w)) ->
  (forall tp w, P w -> P (set_tape tp w)) ->
  (forall t w, P w -> P (set_clock t w)) ->
  (forall rc w, P w -> P (reap pid rc w)) ->
  forall tape w, P w -> P (snd (wait_events pid deadline tape w)).
Proof.
  intros Hev Htp Hck Hrp.
  induction tape as [|ev tape IH]; intros w HP; cbn [wait_events].
  - destruct (exit_code pid w); cbn [snd]; auto.
    destruct (deadline <=? w_clock w); cbn [snd]; auto.
  - destruct (exit_code pid w); cbn [snd]; auto.
    destruct (deadline <=? w_clock w); cbn [snd]; auto.
Qed.

Lemma wait_events_keeps_flag (pid : nat) (deadline : Z) (tape : list Event) (w : World) :
  stop_thread w = true -> stop_thread (snd (wait_events pid deadline tape w)) = true.
Proof.
  apply (wait_events_preserves (fun w => stop_thread w = true)); auto.
  intros; now apply env_step_keeps_flag.
Qed.


Lemma env_step_has_child (pid : nat) (p0 : Proc) (ev : Event) (w : World) :
  has_child pid p0 w -> has_child pid p0 (env_step ev w).
Proof.
  intros (p & Hp & Hs). destruct ev as [| fs | avail | pid' rc err | tid];
    cbn [env_step]; try (exists p; split; [exact Hp|exact Hs]).
  - unfold has_child. cbn [w_procs set_procs].
    destruct (Nat.eq_dec pid' pid) as [->|Hne].
    + rewrite nth_error_update_nth_eq, Hp. cbn [option_map].
      eexists; split; [reflexivity|].
      destruct (p_state p); cbn; exact Hs.
    + rewrite nth_error_update_nth_neq by assumption. eauto.
  - unfold has_child.
    destruct (monitor_disk_space_frame tid w) as (_ & _ & _ & _ & _ & -> & _). eauto.
Qed.

Lemma reap_has_child (pid pid' : nat) (p0 : Proc) (rc : Z) (w : World) :
  has_child pid p0 w -> has_child pid p0 (reap pid' rc w).
Proof.
  intros (p & Hp & Hs). unfold has_child, reap. cbn [w_procs set_procs].
  destruct (Nat.eq_dec pid' pid) as [->|Hne].
  - rewrite nth_error_update_nth_eq, Hp. cbn [option_map].
    eexists; split; [reflexivity|exact Hs].
  - rewrite nth_error_update_nth_neq by assumption. eauto.
Qed.

Lemma wait_events_has_child (pid pid' : nat) (p0 : Proc) (deadline : Z)
    (tape : list Event) (w : World) :
  has_child pid p0 w -> has_child pid p0 (snd (wait_events pid' deadline tape w)).
Proof.
  apply (wait_events_preserves (has_child pid p0)); auto.
  - intros; now apply env_step_has_child.
  - intros; now apply reap_has_child.
Qed.


(** When the wait times out the child is still running. *)
Lemma wait_events_none (pid : nat) (deadline : Z) (tape : list Event) (w w' : World) :
  wait_events pid deadline tape w = (None, w') -> exit_code pid w' = None.
Proof.
  revert w. induction tape as [|ev tape IH]; intros w; cbn [wait_events];
    destruct (exit_code pid w) as [rc0|] eqn:Hx; try discriminate.
  - destruct (deadline <=? w_clock w); intros [= <-]; exact Hx.
  - destruct (deadline <=? w_clock w); [intros [= <-]; exact Hx|]. apply IH.
Qed.

Lemma wait_events_eq (pid : nat) (deadline : Z) (tape : list Event) (w : World) :
  wait_events pid deadline tape w =
  match exit_code pid w with
  | Some rc => (Some rc, reap pid rc (set_tape tape w))
  | None =>
      if deadline <=? w_clock w then (None, set_tape tape w)
      else
        match tape with
        | [] => (None, set_tape [] (set_clock deadline w))
        | ev :: tape' => wait_events pid deadline tape' (env_step ev w)
        end
  end.
Proof. destruct tape; reflexivity. Qed.

(** For a child that is running when the wait begins, [exits_in_time] tells
    whether the wait gives an exit code or times out. *)
Lemma wait_events_exits_in_time (pid : nat) (tape : list Event) :
  forall (timeout deadline : Z) (w : World) (p : Proc),
    nth_error (w_procs w) pid = Some p -> p_state p = Running ->
    deadline = w_clock w + timeout ->
    exits_in_time pid timeout tape =
    (match fst (wait_events pid deadline tape w) with Some _ => true | None => false end).
Proof.
  induction tape as [|ev tape IH]; intros timeout deadline w p Hp Hrun Hd;
    cbn [wait_events exits_in_time]; unfold exit_code; rewrite Hp, Hrun.
  - replace (deadline <=? w_clock w) with (timeout <=? 0)
      by (subst deadline; destruct (Z.leb_spec timeout 0), (Z.leb_spec (w_clock w + timeout) (w_clock w)); lia).
    destruct (timeout <=? 0); reflexivity.
  - replace (deadline <=? w_clock w) with (timeout <=? 0)
      by (subst deadline; destruct (Z.leb_spec timeout 0), (Z.leb_spec (w_clock w + timeout) (w_clock w)); lia).
    destruct (timeout <=? 0); [reflexivity|].
    destruct ev as [| fs | avail | pid' rc err | tid].
    + apply (IH _ _ _ p); cbn; auto. lia.
    + apply (IH _ _ _ p); cbn; auto.
    + apply (IH _ _ _ p); cbn; auto.
    + destruct (Nat.eqb_spec pid' pid) as [->|Hne].
      * rewrite wait_events_eq. unfold exit_code. cbn [env_step w_procs set_procs].
        rewrite nth_error_update_nth_eq, Hp. cbn [option_map]. rewrite Hrun.
        reflexivity.
      * apply (IH _ _ _ p); cbn [env_step w_procs set_procs w_clock]; auto.
        rewrite nth_error_update_nth_neq by assumption. exact Hp.
    + destruct (monitor_disk_space_frame tid w) as (_ & _ & _ & Hc & _ & Hps & _).
      apply (IH _ _ _ p); cbn [env_step]; rewrite ?Hps, ?Hc; auto.
Qed.


Lemma monitor_disk_space_inv (tid tid' : nat) (L : Q) (path : Path) (w : World) :
  monitor_inv tid L path w -> monitor_inv tid L path (monitor_disk_space tid' w).
Proof.
  intros (m & Hm & HL & Hpath & Hdead). unfold monitor_disk_space.
  destruct (nth_error (w_threads w) tid') as [m'|] eqn:Hm'; [|exists m; auto].
  destruct (m_alive m' && (m_wake m' <=? w_clock w)); [|exists m; auto].
  destruct (Qle_bool (m_limit m') (usage_gb (m_path m') (w_fs w)));
    unfold monitor_inv; cbn [w_threads stop_thread set_threads set_stop].
  - destruct (Nat.eq_dec tid' tid) as [->|Hne].
    + rewrite nth_error_update_nth_eq, Hm. cbn [option_map].
      eexists; split; [reflexivity|]. cbn. auto.
    + rewrite nth_error_update_nth_neq by assumption. exists m; auto.
  - destruct (Nat.eq_dec tid' tid) as [->|Hne].
    + rewrite nth_error_update_nth_eq, Hm. cbn [option_map].
      eexists; split; [reflexivity|]. cbn. repeat split; auto. discriminate.
    + rewrite nth_error_update_nth_neq by assumption. exists m; auto.
Qed.

Lemma env_step_monitor_inv (tid : nat) (L : Q) (path : Path) (ev : Event) (w : World) :
  monitor_inv tid L path w -> monitor_inv tid L path (env_step ev w).
Proof.
  destruct ev; cbn [env_step]; auto using monitor_disk_space_inv.
Qed.

Lemma wait_events_monitor_inv (tid : nat) (L : Q) (path : Path) (pid : nat) (deadline : Z)
    (tape : list Event) (w : World) :
  monitor_inv tid L path w ->
  monitor_inv tid L path (snd (wait_events pid deadline tape w)).
Proof.
  apply (wait_events_preserves (monitor_inv tid L path)); auto.
  intros; now apply env_step_monitor_inv.
Qed.

End Events.

(** ** The resolver *)

Section Resolver.

Context (configs : Configs).

(** What [check_available_node_space] gives when the free space of the node
    can be read: the resolver of the specification applied to the usage of
    [configs.BASE_PATH] and to the free space less three, not below zero.
    The world is left as it was, but for what is printed. *)
Lemma check_available_node_space_resolves (limit_gb : Z) (w : World) (F : Z) :
  w_df w = Readable F ->
  let used := usage_gb (BASE_PATH configs) (w_fs w) in
  let available := inject_Z (Z.max (F - 3) 0) in
  exists L,
    fst (check_available_node_space configs limit_gb w) = Returns L /\
    (L == resolve_spec (inject_Z limit_gb) used available)%Q /\
    ((inject_Z limit_gb - used < available)%Q -> L = inject_Z limit_gb) /\
    ((available <= inject_Z limit_gb - used)%Q -> (L == used + available)%Q).
Proof.
  intros Hdf used available.
  assert (Hleft : (py_round2 (inject_Z limit_gb - used) == inject_Z limit_gb - used)%Q).
  { apply py_round2_id, two_decimals_minus;
      [apply two_decimals_inject|apply usage_gb_two_decimals]. }
  assert (Hnew : (py_round2 (used + available) == used + available)%Q).
  { apply py_round2_id, two_decimals_plus;
      [apply usage_gb_two_decimals|apply two_decimals_inject]. }
  unfold check_available_node_space, get_disk_usage, emit, bind, ret, raise, gets, modify.
  rewrite Hdf. simp_world. fold used. fold available.
  unfold resolve_spec.
  destruct (Qlt_bool (py_round2 (inject_Z limit_gb - used)) available) eqn:E;
    simp_world; eexists; (split; [reflexivity|]).
  - apply Qlt_bool_iff in E. rewrite Hleft in E.
    pose proof (proj2 (Qlt_bool_iff _ _) E) as E'. rewrite E'.
    repeat split; try reflexivity.
    intro Hle. exfalso. exact (Qlt_not_le _ _ E Hle).
  - apply Qlt_bool_false_iff in E. rewrite Hleft in E.
    pose proof (proj2 (Qlt_bool_false_iff _ _) E) as E'. rewrite E'.
    split; [exact Hnew|]. split; [|intros _; exact Hnew].
    intro Hlt. exfalso. exact (Qlt_not_le _ _ Hlt E).
Qed.

End Resolver.

(** ** The paths through [run_subprocess] *)

Section Runner.

Context (configs : Configs).


Ltac finish_launched command prog :=
  match goal with
  | |- context [wait_events ?a ?b ?c ?W] =>
      let Hchild := fresh "Hchild" in
      let rc := fresh "return_code" in
      let w2 := fresh "w2" in
      let p := fresh "p" in
      let Hp := fresh "Hp" in
      let Hargv := fresh "Hargv" in
      assert (Hchild : has_child a
                (mkProc command Running EmptyString (prog_ignores_sigterm prog) false)
                (snd (wait_events a b c W)))
        by (apply wait_events_has_child; eexists;
            split; [simp_world; apply nth_error_snoc|repeat split; reflexivity]);
      destruct (wait_events a b c W) as [[rc|] w2];
      simp_world;
      [ destruct (stop_thread w2); simp_world;
        [|destruct (rc =? 0); simp_world];
        (split; [eauto|]);
        try (unfold terminated; simp_world; eexists; reflexivity);
        eexists; reflexivity
      | destruct Hchild as (p & Hp & Hargv & _);
        cbn [snd] in Hp; rewrite Hp; rewrite Hargv;
        split; [reflexivity|unfold terminated; simp_world; eexists; reflexivity] ]
  end.

Lemma run_subprocess_launched (command : list string) (process_message : string)
    (limit_gb : Z) (path_to_check : Path) (timeout : Z) (w : World) (L : Q) (prog : Program) :
  fst (check_available_node_space configs limit_gb w) = Returns L ->
  Qlt_bool L (usage_gb path_to_check (w_fs w)) = false ->
  w_programs w command = Some prog ->
  let r := run_subprocess configs command process_message limit_gb path_to_check timeout w in
  let pid := List.length (w_procs w) in
  exists w1, launched w w1 command prog L path_to_check /\
    match wait_events pid (w_clock w + timeout) (w_tape w) w1 with
    | (None, w2) =>
        fst r = Raises (TimeoutExpired command timeout) /\ terminated pid w2 (snd r)
    | (Some return_code, w2) =>
        if stop_thread w2 then
          fst r = Raises (DiskSpaceExceeded DuringRun) /\ terminated pid w2 (snd r)
        else if return_code =? 0 then
          fst r = Returns tt /\ exists out, snd r = set_out out w2
        else
          (exists err, fst r = Raises (HTTPException err)) /\ terminated pid w2 (snd r)
    end.
Proof.
  intros HL Hpre Hprog r pid. subst r pid. revert HL.
  unfold_run.
  destruct (w_df w) as [F|message]; simp_world; [|discriminate].
  match goal with |- context [Qlt_bool ?a ?b] => destruct (Qlt_bool a b) eqn:E end;
    simp_world; intros [= <-]; rewrite Hpre; simp_world; rewrite Hprog; simp_world.
  - match goal with
    | |- context [wait_events (Datatypes.length (w_procs w)) _ _ ?W] => exists W
    end.
    split; [unfold launched; simp_world; repeat split; reflexivity|].
    finish_launched command prog.
  - match goal with
    | |- context [wait_events (Datatypes.length (w_procs w)) _ _ ?W] => exists W
    end.
    split; [unfold launched; simp_world; repeat split; reflexivity|].
    finish_launched command prog.
Qed.

(** The three ways of failing before a child exists: the node's free space
    cannot be read, the quota is exceeded already, the command cannot be
    executed.  In the last one the monitor thread has been started. *)
Lemma run_subprocess_not_launched (command : list string) (process_message : string)
    (limit_gb : Z) (path_to_check : Path) (timeout : Z) (w : World) :
  let r := run_subprocess configs command process_message limit_gb path_to_check timeout w in
  match fst (check_available_node_space configs limit_gb w) with
  | Raises e =>
      fst r = Raises e /\ w_procs (snd r) = w_procs w /\
      w_threads (snd r) = w_threads w /\ stop_thread (snd r) = stop_thread w
  | Returns L =>
      if Qlt_bool L (usage_gb path_to_check (w_fs w)) then
        fst r = Raises (DiskSpaceExceeded BeforeStart) /\
        w_procs (snd r) = w_procs w /\
        w_threads (snd r) = w_threads w /\ stop_thread (snd r) = stop_thread w
      else
        match w_programs w command with
        | None =>
            fst r = Raises OSError /\ w_procs (snd r) = w_procs w /\
            w_threads (snd r) =
              (w_threads w ++ [mkMonitor L path_to_check (w_clock w + 3) true])%list /\
            stop_thread (snd r) = stop_thread w
        | Some _ => True
        end
  end.
Proof.
  unfold_run.
  destruct (w_df w) as [F|message]; simp_world; [|auto 6].
  match goal with |- context [Qlt_bool ?a ?b] => destruct (Qlt_bool a b) end; simp_world.
  all: match goal with |- context [Qlt_bool ?a ?b] => destruct (Qlt_bool a b) end; simp_world;
    auto 6.
  all: destruct (w_programs w command); simp_world; auto 6.
Qed.

(** A child in the final world that was not in the initial one: the
    invocation got past the resolver, the pre-flight check and [Popen]. *)
Lemma run_subprocess_spawned (command : list string) (process_message : string)
    (limit_gb : Z) (path_to_check : Path) (timeout : Z) (w : World) (p : Proc) :
  let r := run_subprocess configs command process_message limit_gb path_to_check timeout w in
  nth_error (w_procs (snd r)) (List.length (w_procs w)) = Some p ->
  exists L prog,
    fst (check_available_node_space configs limit_gb w) = Returns L /\
    Qlt_bool L (usage_gb path_to_check (w_fs w)) = false /\
    w_programs w command = Some prog.
Proof.
  intros r Hp.
  pose proof (run_subprocess_not_launched command process_message limit_gb
                path_to_check timeout w) as H.
  cbv zeta in H. fold r in H.
  assert (Hnone : w_procs (snd r) = w_procs w -> False).
  { intro E. rewrite E in Hp.
    assert (nth_error (w_procs w) (List.length (w_procs w)) = None)
      by (apply nth_error_None; lia).
    congruence. }
  destruct (fst (check_available_node_space configs limit_gb w)) as [L|e];
    [|tauto].
  destruct (Qlt_bool L (usage_gb path_to_check (w_fs w))) eqn:Hpre; [tauto|].
  destruct (w_programs w command) as [prog|] eqn:Hprog; [|tauto].
  exists L, prog. repeat split; assumption.
Qed.

(** After a timeout the child has been sent SIGTERM; it is dead unless
    it ignores the signal, and it has not been waited for. *)
Lemma timeout_child (pid : nat) (deadline : Z) (tape : list Event) (w1 w2 w' : World) (p : Proc) :
  wait_events pid deadline tape w1 = (None, w2) ->
  terminated pid w2 w' ->
  nth_error (w_procs w') pid = Some p ->
  p_sigterm_sent p = true /\
  p_state p = (if p_ignores_sigterm p then Running else Exited (-15)).
Proof.
  intros Hwait (out & ->) Hp. cbn [w_procs set_out set_procs] in Hp.
  apply wait_events_none in Hwait. unfold exit_code in Hwait.
  rewrite nth_error_update_nth_eq in Hp.
  destruct (nth_error (w_procs w2) pid) as [p2|]; [|discriminate].
  cbn [option_map] in Hp. injection Hp as <-.
  unfold terminate_proc.
  destruct (p_state p2); try discriminate.
  cbn. destruct (p_ignores_sigterm p2); auto.
Qed.


Lemma terminated_frame (pid : nat) (w2 w' : World) :
  terminated pid w2 w' \/ (exists out, w' = set_out out w2) ->
  stop_thread w' = stop_thread w2 /\ w_threads w' = w_threads w2.
Proof.
  intros [(out & ->)|(out & ->)]; cbn; auto.
Qed.

Lemma launched_exits_in_time (w w1 : World) (command : list string) (prog : Program)
    (L : Q) (path_to_check : Path) (timeout : Z) :
  launched w w1 command prog L path_to_check ->
  exits_in_time (List.length (w_procs w)) timeout (w_tape w) =
  (match fst (wait_events (List.length (w_procs w)) (w_clock w + timeout) (w_tape w) w1) with
   | Some _ => true
   | None => false
   end).
Proof.
  intros (Hprocs & _ & _ & _ & _ & Hclock & _ & _).
  eapply wait_events_exits_in_time.
  - rewrite Hprocs. apply nth_error_snoc.
  - reflexivity.
  - rewrite Hclock. reflexivity.
Qed.

Lemma launched_monitor_inv (w w1 : World) (command : list string) (prog : Program)
    (L : Q) (path_to_check : Path) :
  launched w w1 command prog L path_to_check ->
  monitor_inv (List.length (w_threads w)) L path_to_check w1.
Proof.
  intros (_ & Hthreads & _).
  eexists. rewrite Hthreads. split; [apply nth_error_snoc|].
  cbn. repeat split. discriminate.
Qed.

(** [run_subprocess] never clears the flag. *)
Lemma run_subprocess_keeps_flag (command : list string) (process_message : string)
    (limit_gb : Z) (path_to_check : Path) (timeout : Z) (w : World) :
  stop_thread w = true ->
  stop_thread
    (snd (run_subprocess configs command process_message limit_gb path_to_check timeout w))
  = true.
Proof.
  intro Hset.
  pose proof (run_subprocess_not_launched command process_message limit_gb
                path_to_check timeout w) as H.
  cbv zeta in H.
  destruct (fst (check_available_node_space configs limit_gb w)) as [L|e] eqn:HL;
    [|destruct H as (_ & _ & _ & ->); exact Hset].
  destruct (Qlt_bool L (usage_gb path_to_check (w_fs w))) eqn:Hpre;
    [destruct H as (_ & _ & _ & ->); exact Hset|].
  destruct (w_programs w command) as [prog|] eqn:Hprog;
    [|destruct H as (_ & _ & _ & ->); exact Hset].
  destruct (run_subprocess_launched command process_message limit_gb
              path_to_check timeout w L prog HL Hpre Hprog) as (w1 & Hl & Hrun).
  assert (Hset1 : stop_thread w1 = true).
  { destruct Hl as (_ & _ & _ & _ & _ & _ & _ & ->). exact Hset. }
  pose proof (wait_events_keeps_flag (List.length (w_procs w)) (w_clock w + timeout)
                (w_tape w) w1 Hset1) as Hset2.
  destruct (wait_events _ _ _ w1) as [[rc|] w2]; cbn [snd] in Hset2.
  - rewrite Hset2 in Hrun. destruct Hrun as (_ & Hterm).
    destruct (terminated_frame _ _ _ (or_introl Hterm)) as (-> & _). exact Hset2.
  - destruct Hrun as (_ & Hterm).
    destruct (terminated_frame _ _ _ (or_introl Hterm)) as (-> & _). exact Hset2.
Qed.

(** The pre-flight check fails exactly when the figure [get_disk_usage] gives
    for [path_to_check] is above the resolved limit. *)
Lemma preflight_iff (command : list string) (process_message : string)
    (limit_gb : Z) (path_to_check : Path) (timeout : Z) (w : World) (L : Q) :
  fst (check_available_node_space configs limit_gb w) = Returns L ->
  fst (run_subprocess configs command process_message limit_gb path_to_check timeout w)
    = Raises (DiskSpaceExceeded BeforeStart)
  <-> (L < usage_gb path_to_check (w_fs w))%Q.
Proof.
  intro HL.
  pose proof (run_subprocess_not_launched command process_message limit_gb
                path_to_check timeout w) as H.
  cbv zeta in H. rewrite HL in H.
  rewrite <- Qlt_bool_iff.
  destruct (Qlt_bool L (usage_gb path_to_check (w_fs w))) eqn:Hpre; [tauto|].
  split; [|discriminate]. intro Hres. exfalso.
  destruct (w_programs w command) as [prog|] eqn:Hprog.
  - destruct (run_subprocess_launched command process_message limit_gb
                path_to_check timeout w L prog HL Hpre Hprog) as (w1 & _ & Hrun).
    rewrite Hres in Hrun.
    destruct (wait_events _ _ _ w1) as [[rc|] w2].
    + destruct (stop_thread w2); [destruct Hrun; discriminate|].
      destruct (rc =? 0); [destruct Hrun; discriminate|].
      destruct Hrun as ((err & Herr) & _). discriminate.
    + destruct Hrun; discriminate.
  - destruct H as (H & _). congruence.
Qed.

(** The monitor thread of an invocation watches [path_to_check] against
    the resolved limit. *)
Lemma run_subprocess_monitor (command : list string) (process_message : string)
    (limit_gb : Z) (path_to_check : Path) (timeout : Z) (w : World) (L : Q) (m : Monitor) :
  fst (check_available_node_space configs limit_gb w) = Returns L ->
  nth_error
    (w_threads
       (snd (run_subprocess configs command process_message limit_gb path_to_check timeout w)))
    (List.length (w_threads w)) = Some m ->
  m_limit m = L /\ m_path m = path_to_check.
Proof.
  intros HL Hm.
  pose proof (run_subprocess_not_launched command process_message limit_gb
                path_to_check timeout w) as H.
  cbv zeta in H. rewrite HL in H.
  assert (Hnone : nth_error (w_threads w) (List.length (w_threads w)) = None)
    by (apply nth_error_None; lia).
  destruct (Qlt_bool L (usage_gb path_to_check (w_fs w))) eqn:Hpre.
  { destruct H as (_ & _ & Hth & _). rewrite Hth in Hm. congruence. }
  destruct (w_programs w command) as [prog|] eqn:Hprog.
  - destruct (run_subprocess_launched command process_message limit_gb
                path_to_check timeout w L prog HL Hpre Hprog) as (w1 & Hl & Hrun).
    pose proof (wait_events_monitor_inv _ _ _ (List.length (w_procs w))
                  (w_clock w + timeout) (w_tape w) _ (launched_monitor_inv _ _ _ _ _ _ Hl))
      as (m' & Hm' & Hlim & Hpath & _).
    destruct (wait_events _ _ _ w1) as [[rc|] w2]; cbn [snd] in Hm'.
    + assert (Hw' : terminated (List.length (w_procs w)) w2
                      (snd (run_subprocess configs command process_message limit_gb
                              path_to_check timeout w)) \/
                    (exists out, snd (run_subprocess configs command process_message limit_gb
                                        path_to_check timeout w) = set_out out w2)).
      { destruct (stop_thread w2); [tauto|]. destruct (rc =? 0); tauto. }
      destruct (terminated_frame _ _ _ Hw') as (_ & Hthreads).
      rewrite Hthreads, Hm' in Hm. injection Hm as <-. auto.
    + destruct Hrun as (_ & Hterm).
      destruct (terminated_frame _ _ _ (or_introl Hterm)) as (_ & Hthreads).
      rewrite Hthreads, Hm' in Hm. injection Hm as <-. auto.
  - destruct H as (_ & _ & Hth & _). rewrite Hth, nth_error_snoc in Hm.
    injection Hm as <-. auto.
Qed.

End Runner.

(** * The claims *)


(** C2.  When the child has completed — [process.wait] has collected its exit
    code — and the module-level flag is set at that moment, the invocation
    raises [DiskSpaceExceeded], whatever the exit code is, zero included. *)
Theorem quota_breach_reported_over_exit_status
    (configs : Configs) (command : list string) (process_message : string) (limit_gb : Z)
    (path_to_check : Path) (timeout : Z) (w : World) (p : Proc) (return_code : Z) :
  let r := run_subprocess configs command process_message limit_gb path_to_check timeout w in
  nth_error (w_procs (snd r)) (List.length (w_procs w)) = Some p ->
  p_state p = Reaped return_code ->
  stop_thread (snd r) = true ->
  fst r = Raises (DiskSpaceExceeded DuringRun).
Proof.
  intros r Hp Hreaped Hset.
  destruct (run_subprocess_spawned configs command process_message limit_gb
              path_to_check timeout w p Hp) as (L & prog & HL & Hpre & Hprog).
  destruct (run_subprocess_launched configs command process_message limit_gb
              path_to_check timeout w L prog HL Hpre Hprog) as (w1 & _ & Hrun).
  fold r in Hrun.
  destruct (wait_events _ _ _ w1) as [[rc|] w2] eqn:Hwait.
  - destruct (stop_thread w2) eqn:Hs; [tauto|].
    assert (Hfr : stop_thread (snd r) = stop_thread w2).
    { destruct (rc =? 0); apply (terminated_frame (List.length (w_procs w))); tauto. }
    congruence.
  - destruct Hrun as (_ & Hterm).
    destruct (timeout_child _ _ _ _ _ _ _ Hwait Hterm Hp) as (_ & Hst).
    rewrite Hreaped in Hst. destruct (p_ignores_sigterm p); discriminate.
Qed.

(** C6, amended.  When the child does not exit within the timeout the
    invocation raises [TimeoutExpired], and the child has been sent SIGTERM
    by then: it is dead unless it ignores the signal, in which case it is
    still running. *)
Theorem timeout_raises_and_signals_child
    (configs : Configs) (command : list string) (process_message : string) (limit_gb : Z)
    (path_to_check : Path) (timeout : Z) (w : World) (p : Proc) :
  let r := run_subprocess configs command process_message limit_gb path_to_check timeout w in
  nth_error (w_procs (snd r)) (List.length (w_procs w)) = Some p ->
  exits_in_time (List.length (w_procs w)) timeout (w_tape w) = false ->
  fst r = Raises (TimeoutExpired command timeout) /\
  p_sigterm_sent p = true /\
  p_state p = (if p_ignores_sigterm p then Running else Exited (-15)).
Proof.
  intros r Hp Hlate.
  destruct (run_subprocess_spawned configs command process_message limit_gb
              path_to_check timeout w p Hp) as (L & prog & HL & Hpre & Hprog).
  destruct (run_subprocess_launched configs command process_message limit_gb
              path_to_check timeout w L prog HL Hpre Hprog) as (w1 & Hl & Hrun).
  fold r in Hrun.
  rewrite (launched_exits_in_time _ _ _ _ _ _ timeout Hl) in Hlate.
  destruct (wait_events _ _ _ w1) as [[rc|] w2] eqn:Hwait; [discriminate|].
  destruct Hrun as (Hres & Hterm).
  split; [exact Hres|].
  exact (timeout_child _ _ _ _ _ _ _ Hwait Hterm Hp).
Qed.


(** C9.  Nothing clears the module-level flag: no event, none of the
    functions and no invocation of [run_subprocess] unsets it.  So once it
    is set, every invocation whose child completes before the timeout
    raises [DiskSpaceExceeded], whatever the files, the limit and the exit
    code are. *)
Theorem stale_flag_fails_every_later_run (configs : Configs) (w : World) :
  stop_thread w = true ->
  (forall evs, stop_thread (env_run evs w) = true) /\
  (forall folder, stop_thread (snd (get_disk_usage folder w)) = true) /\
  (forall process_message,
      stop_thread (snd (log_disk_usage configs process_message w)) = true) /\
  (forall limit_gb,
      stop_thread (snd (check_available_node_space configs limit_gb w)) = true) /\
  forall (command : list string) (process_message : string) (limit_gb : Z)
         (path_to_check : Path) (timeout : Z),
    let r := run_subprocess configs command process_message limit_gb path_to_check timeout w in
    stop_thread (snd r) = true /\
    forall p, nth_error (w_procs (snd r)) (List.length (w_procs w)) = Some p ->
              exits_in_time (List.length (w_procs w)) timeout (w_tape w) = true ->
              fst r = Raises (DiskSpaceExceeded DuringRun).
Proof.
  intro Hset. split; [intro evs; now apply env_run_keeps_flag|].
  split; [intro folder; exact Hset|].
  split; [intro process_message; exact Hset|].
  split.
  { intro limit_gb.
    unfold check_available_node_space, get_disk_usage, emit, bind, ret, raise, gets, modify.
    destruct (w_df w) as [F|message]; simp_world; [|exact Hset].
    match goal with |- context [Qlt_bool ?a ?b] => destruct (Qlt_bool a b) end;
      simp_world; exact Hset. }
  intros command process_message limit_gb path_to_check timeout r.
  split; [now apply run_subprocess_keeps_flag|].
  intros p Hp Hintime.
  destruct (run_subprocess_spawned configs command process_message limit_gb
              path_to_check timeout w p Hp) as (L & prog & HL & Hpre & Hprog).
  destruct (run_subprocess_launched configs command process_message limit_gb
              path_to_check timeout w L prog HL Hpre Hprog) as (w1 & Hl & Hrun).
  fold r in Hrun.
  rewrite (launched_exits_in_time _ _ _ _ _ _ timeout Hl) in Hintime.
  assert (Hset1 : stop_thread w1 = true).
  { destruct Hl as (_ & _ & _ & _ & _ & _ & _ & ->). exact Hset. }
  pose proof (wait_events_keeps_flag (List.length (w_procs w)) (w_clock w + timeout)
                (w_tape w) w1 Hset1) as Hset2.
  destruct (wait_events _ _ _ w1) as [[rc|] w2]; [|discriminate].
  cbn [snd] in Hset2. rewrite Hset2 in Hrun. tauto.
Qed.

(** C10.  When the usage of [path_to_check] equals the resolved limit, the
    pre-flight check passes and the child is launched, with a monitor thread
    holding that limit; and that thread, at its first sample, sets the flag
    and exits if the usage is still equal to the limit. *)
Theorem quota_boundary_asymmetric
    (configs : Configs) (command : list string) (process_message : string) (limit_gb : Z)
    (path_to_check : Path) (timeout : Z) (w : World) (L : Q) (prog : Program) :
  fst (check_available_node_space configs limit_gb w) = Returns L ->
  (usage_gb path_to_check (w_fs w) == L)%Q ->
  w_programs w command = Some prog ->
  let r := run_subprocess configs command process_message limit_gb path_to_check timeout w in
  let tid := List.length (w_threads w) in
  (exists p m,
      nth_error (w_procs (snd r)) (List.length (w_procs w)) = Some p /\
      p_argv p = command /\
      nth_error (w_threads (snd r)) tid = Some m /\
      m_limit m = L /\ m_path m = path_to_check) /\
  forall w',
    nth_error (w_threads w') tid = Some (mkMonitor L path_to_check (w_clock w + 3) true) ->
    w_clock w + 3 <= w_clock w' ->
    (usage_gb path_to_check (w_fs w') == L)%Q ->
    stop_thread (monitor_disk_space tid w') = true /\
    option_map m_alive (nth_error (w_threads (monitor_disk_space tid w')) tid) = Some false.
Proof.
  intros HL Heq Hprog r tid. split.
  - assert (Hpre : Qlt_bool L (usage_gb path_to_check (w_fs w)) = false).
    { apply Qlt_bool_false_iff. rewrite Heq. apply Qle_refl. }
    destruct (run_subprocess_launched configs command process_message limit_gb
                path_to_check timeout w L prog HL Hpre Hprog) as (w1 & Hl & Hrun).
    fold r in Hrun.
    pose proof (wait_events_monitor_inv _ _ _ (List.length (w_procs w))
                  (w_clock w + timeout) (w_tape w) _ (launched_monitor_inv _ _ _ _ _ _ Hl))
      as (m & Hm & Hlim & Hpath & _).
    assert (Hc : has_child (List.length (w_procs w))
                   (mkProc command Running EmptyString (prog_ignores_sigterm prog) false)
                   (snd (wait_events (List.length (w_procs w)) (w_clock w + timeout)
                           (w_tape w) w1))).
    { apply wait_events_has_child. destruct Hl as (Hprocs & _).
      eexists. rewrite Hprocs. split; [apply nth_error_snoc|repeat split; reflexivity]. }
    destruct Hc as (p & Hp & Hargv & Hign & Hsent).
    destruct (wait_events _ _ _ w1) as [[rc|] w2]; cbn [snd] in Hm, Hp.
    + assert (Hw' : terminated (List.length (w_procs w)) w2 (snd r) \/
                    (exists out, snd r = set_out out w2)).
      { destruct (stop_thread w2); [tauto|]. destruct (rc =? 0); tauto. }
      destruct (terminated_frame _ _ _ Hw') as (_ & Hthreads).
      destruct Hw' as [(out & Hsnd)|(out & Hsnd)]; rewrite Hsnd;
        cbn [w_procs w_threads set_out set_procs].
      * rewrite nth_error_update_nth_eq, Hp. cbn [option_map].
        exists (terminate_proc p), m. repeat split; auto.
        unfold terminate_proc. destruct (p_state p); exact Hargv.
      * exists p, m. repeat split; auto.
    + destruct Hrun as (_ & (out & Hsnd)). rewrite Hsnd.
      cbn [w_procs w_threads set_out set_procs].
      rewrite nth_error_update_nth_eq, Hp. cbn [option_map].
      exists (terminate_proc p), m. repeat split; auto.
      unfold terminate_proc. destruct (p_state p); exact Hargv.
  - intros w' Hm Hclock Hsame. unfold monitor_disk_space. rewrite Hm.
    cbn [m_alive m_wake m_limit m_path andb].
    destruct (Z.leb_spec (w_clock w + 3) (w_clock w')) as [_|]; [|lia].
    assert (Hle : Qle_bool L (usage_gb path_to_check (w_fs w')) = true).
    { apply Qle_bool_iff. rewrite Hsame. apply Qle_refl. }
    rewrite Hle. cbn [stop_thread w_threads set_threads set_stop].
    split; [reflexivity|].
    rewrite nth_error_update_nth_eq, Hm. reflexivity.
Qed.

(** C3, amended.  With [used] the usage of [configs.BASE_PATH] and
    [available] the free space of the node less the 3 GB buffer, not below
    zero: the limit [L] that [check_available_node_space] returns has
    [L - used <= available]; it is the requested limit when
    [limit_gb - used < available], and [used + available] otherwise. *)
Theorem effective_limit_within_available_space
    (configs : Configs) (limit_gb : Z) (w : World) (F : Z) :
  w_df w = Readable F ->
  let used := usage_gb (BASE_PATH configs) (w_fs w) in
  let available := inject_Z (Z.max (F - 3) 0) in
  exists L,
    fst (check_available_node_space configs limit_gb w) = Returns L /\
    (L - used <= available)%Q /\
    ((inject_Z limit_gb - used < available)%Q -> L = inject_Z limit_gb) /\
    (~ (inject_Z limit_gb - used < available)%Q -> (L == used + available)%Q).
Proof.
  intros Hdf used available.
  destruct (check_available_node_space_resolves configs limit_gb w F Hdf)
    as (L & HL & _ & Hkeep & Hshrink).
  fold used in Hkeep, Hshrink. fold available in Hkeep, Hshrink.
  exists L. split; [exact HL|].
  split; [|split; [exact Hkeep|]].
  - destruct (Qlt_le_dec (inject_Z limit_gb - used) available) as [Hlt|Hle].
    + rewrite (Hkeep Hlt). apply Qlt_le_weak. exact Hlt.
    + rewrite (Hshrink Hle). lra.
  - intro Hn. apply Hshrink. apply Qnot_lt_le. exact Hn.
Qed.

(** C7, amended.  The resolver measures [configs.BASE_PATH], whatever
    [path_to_check] is: the limit of an invocation is the resolver of the
    specification applied to the usage of [configs.BASE_PATH].  The
    pre-flight check and the monitor thread measure [path_to_check] against
    that limit. *)
Theorem resolver_measures_base_path
    (configs : Configs) (command : list string) (process_message : string) (limit_gb : Z)
    (path_to_check : Path) (timeout : Z) (w : World) (F : Z) :
  w_df w = Readable F ->
  let r := run_subprocess configs command process_message limit_gb path_to_check timeout w in
  exists L,
    fst (check_available_node_space configs limit_gb w) = Returns L /\
    (L == resolve_spec (inject_Z limit_gb)
                       (usage_gb (BASE_PATH configs) (w_fs w))
                       (inject_Z (Z.max (F - 3) 0)))%Q /\
    (fst r = Raises (DiskSpaceExceeded BeforeStart)
     <-> (L < usage_gb path_to_check (w_fs w))%Q) /\
    (forall m, nth_error (w_threads (snd r)) (List.length (w_threads w)) = Some m ->
               m_limit m = L /\ m_path m = path_to_check).
Proof.
  intros Hdf r.
  destruct (check_available_node_space_resolves configs limit_gb w F Hdf)
    as (L & HL & Hspec & _).
  exists L. split; [exact HL|]. split; [exact Hspec|]. split.
  - now apply preflight_iff.
  - intros m Hm. exact (run_subprocess_monitor configs _ _ _ _ _ _ _ _ HL Hm).
Qed.

(** C8, amended.  The rounding to two decimals is applied to every figure,
    those that are compared with the limit included: [get_disk_usage] gives
    only the rounded figure, the resolver takes the rounded usage of
    [configs.BASE_PATH], the pre-flight check fails exactly when the
    rounded usage of [path_to_check] is above the limit, and a monitor
    thread that wakes up sets the flag exactly when the rounded usage of
    its path has reached its limit. *)
Theorem quota_comparisons_use_rounded_usage
    (configs : Configs) (command : list string) (process_message : string) (limit_gb : Z)
    (path_to_check : Path) (timeout : Z) (w : World) (F : Z) :
  w_df w = Readable F ->
  let rounded := fun folder => py_round2 (exact_gb folder (w_fs w)) in
  (forall folder, fst (get_disk_usage folder w) = Returns (rounded folder)) /\
  (exists L,
      fst (check_available_node_space configs limit_gb w) = Returns L /\
      (L == resolve_spec (inject_Z limit_gb) (rounded (BASE_PATH configs))
                         (inject_Z (Z.max (F - 3) 0)))%Q /\
      (fst (run_subprocess configs command process_message limit_gb path_to_check timeout w)
         = Raises (DiskSpaceExceeded BeforeStart)
       <-> (L < rounded path_to_check)%Q)) /\
  (forall tid,
      stop_thread (monitor_disk_space tid w) =
      stop_thread w ||
      match nth_error (w_threads w) tid with
      | Some m => m_alive m && (m_wake m <=? w_clock w)
                  && Qle_bool (m_limit m) (rounded (m_path m))
      | None => false
      end).
Proof.
  intros Hdf rounded. split; [reflexivity|]. split.
  - destruct (check_available_node_space_resolves configs limit_gb w F Hdf)
      as (L & HL & Hspec & _).
    exists L. split; [exact HL|]. split; [exact Hspec|].
    now apply preflight_iff.
  - intro tid. unfold monitor_disk_space.
    destruct (nth_error (w_threads w) tid) as [m|]; [|now rewrite orb_false_r].
    destruct (m_alive m && (m_wake m <=? w_clock w)); cbn [andb];
      [|now rewrite orb_false_r].
    unfold rounded. fold (usage_gb (m_path m) (w_fs w)).
    destruct (Qle_bool (m_limit m) (usage_gb (m_path m) (w_fs w)));
      cbn [stop_thread set_threads set_stop];
      [now rewrite orb_true_r|now rewrite orb_false_r].
Qed.

(** * The claims on the deployment *)


Lemma quota_breach_reported_over_exit_status_witness :
  nth_error (w_procs (snd Scenario.breached_run)) (List.length (w_procs Scenario.breached))
    = Some Scenario.collected /\
  p_state Scenario.collected = Reaped 0 /\
  stop_thread (snd Scenario.breached_run) = true /\
  fst Scenario.breached_run = Raises (DiskSpaceExceeded DuringRun).
Proof.
  split; [reflexivity|]. split; [reflexivity|]. split; [reflexivity|].
  apply (quota_breach_reported_over_exit_status Scenario.configs Scenario.tar "unpacking" 20
           Scenario.data 500 Scenario.breached Scenario.collected 0);
    reflexivity.
Defined.

(** C3 as the specification states it, with the free space less the buffer
    as the bound, fails on a node with less than 3 GB free: there the
    limit is the usage itself, zero above it, and the bound is negative. *)
Lemma effective_limit_above_free_space_less_buffer :
  w_df Scenario.small_node = Readable 2 /\
  fst (check_available_node_space Scenario.configs 20 Scenario.small_node)
    = Returns (Qmake 50 100) /\
  ~ (Qmake 50 100 - usage_gb (BASE_PATH Scenario.configs) (w_fs Scenario.small_node)
     <= inject_Z (2 - 3))%Q.
Proof.
  split; [reflexivity|]. split; [reflexivity|].
  vm_compute. intro H. apply H. reflexivity.
Defined.

Lemma effective_limit_within_available_space_witness :
  w_df Scenario.small_node = Readable 2 /\
  exists L,
    fst (check_available_node_space Scenario.configs 20 Scenario.small_node) = Returns L /\
    (L - usage_gb (BASE_PATH Scenario.configs) (w_fs Scenario.small_node)
     <= inject_Z (Z.max (2 - 3) 0))%Q /\
    ((inject_Z 20 - usage_gb (BASE_PATH Scenario.configs) (w_fs Scenario.small_node)
      < inject_Z (Z.max (2 - 3) 0))%Q -> L = inject_Z 20) /\
    (~ (inject_Z 20 - usage_gb (BASE_PATH Scenario.configs) (w_fs Scenario.small_node)
        < inject_Z (Z.max (2 - 3) 0))%Q ->
     (L == usage_gb (BASE_PATH Scenario.configs) (w_fs Scenario.small_node)
           + inject_Z (Z.max (2 - 3) 0))%Q).
Proof.
  split; [reflexivity|].
  apply (effective_limit_within_available_space Scenario.configs 20 Scenario.small_node 2).
  reflexivity.
Defined.

(** C4, on the code.  The flag is the module's, not the invocation's.  A
    first extraction during which the quota is exceeded leaves it set; the
    next invocation starts with the flag set and raises
    [DiskSpaceExceeded], although the images are back to 2 GB of the 20
    allowed, its child exits with code 0, and its own monitor thread has
    seen no breach and is still running. *)
Theorem stop_thread_outlives_the_invocation :
  stop_thread Scenario.first_extraction = false /\
  fst Scenario.first_run = Raises (DiskSpaceExceeded DuringRun) /\
  stop_thread Scenario.after_breach = true /\
  usage_gb Scenario.data (w_fs Scenario.after_breach) = Qmake 200 100 /\
  fst Scenario.second_run = Raises (DiskSpaceExceeded DuringRun) /\
  nth_error (w_procs (snd Scenario.second_run)) 1 = Some Scenario.collected /\
  nth_error (w_threads (snd Scenario.second_run)) 1
    = Some (mkMonitor 20 Scenario.data 8 true).
Proof.
  repeat split; reflexivity.
Qed.



(** C6 as the specification states it fails for a child that ignores
    SIGTERM: the invocation raises [TimeoutExpired] and the child is still
    running. *)
Lemma stubborn_child_survives_timeout :
  exits_in_time 0 5 (w_tape (Scenario.hung true)) = false /\
  fst (Scenario.hung_run true) = Raises (TimeoutExpired Scenario.tar 5) /\
  nth_error (w_procs (snd (Scenario.hung_run true))) 0 = Some Scenario.survivor /\
  p_state Scenario.survivor = Running.
Proof.
  repeat split; reflexivity.
Defined.

Lemma timeout_raises_and_signals_child_witness :
  nth_error (w_procs (snd (Scenario.hung_run false)))
            (List.length (w_procs (Scenario.hung false)))
    = Some Scenario.killed /\
  exits_in_time (List.length (w_procs (Scenario.hung false))) 5
                (w_tape (Scenario.hung false)) = false /\
  fst (Scenario.hung_run false) = Raises (TimeoutExpired Scenario.tar 5) /\
  p_sigterm_sent Scenario.killed = true /\
  p_state Scenario.killed
  = (if p_ignores_sigterm Scenario.killed then Running else Exited (-15)).
Proof.
  split; [reflexivity|]. split; [reflexivity|].
  apply (timeout_raises_and_signals_child Scenario.configs Scenario.tar "unpacking" 20
           Scenario.data 5 (Scenario.hung false) Scenario.killed);
    reflexivity.
Defined.

(** C7 as the specification states it fails when [path_to_check] is not
    [configs.BASE_PATH].  With 2 GB below the watched path, 12 GB below the
    base path and 5 GB available, the limit handed to the monitor thread is
    17 GB, where the resolver applied to the watched path gives 7 GB. *)
Lemma resolver_ignores_watched_path :
  usage_gb Scenario.data (w_fs Scenario.shared) = Qmake 200 100 /\
  usage_gb (BASE_PATH Scenario.configs) (w_fs Scenario.shared) = Qmake 1200 100 /\
  fst (check_available_node_space Scenario.configs 20 Scenario.shared)
    = Returns (Qmake 1700 100) /\
  nth_error (w_threads (snd Scenario.shared_run)) 0
    = Some (mkMonitor (Qmake 1700 100) Scenario.data 3 true) /\
  resolve_spec 20 (usage_gb Scenario.data (w_fs Scenario.shared)) (inject_Z (Z.max (8 - 3) 0))
    = Qmake 700 100 /\
  ~ (Qmake 1700 100 ==
     resolve_spec 20 (usage_gb Scenario.data (w_fs Scenario.shared))
                  (inject_Z (Z.max (8 - 3) 0)))%Q.
Proof.
  repeat split; try reflexivity.
  vm_compute. discriminate.
Defined.

Lemma resolver_measures_base_path_witness :
  w_df Scenario.shared = Readable 8 /\
  exists L,
    fst (check_available_node_space Scenario.configs 20 Scenario.shared) = Returns L /\
    (L == resolve_spec (inject_Z 20)
                       (usage_gb (BASE_PATH Scenario.configs) (w_fs Scenario.shared))
                       (inject_Z (Z.max (8 - 3) 0)))%Q /\
    (fst Scenario.shared_run = Raises (DiskSpaceExceeded BeforeStart)
     <-> (L < usage_gb Scenario.data (w_fs Scenario.shared))%Q) /\
    (forall m,
        nth_error (w_threads (snd Scenario.shared_run))
                  (List.length (w_threads Scenario.shared)) = Some m ->
        m_limit m = L /\ m_path m = Scenario.data).
Proof.
  split; [reflexivity|].
  apply (resolver_measures_base_path Scenario.configs Scenario.tar "unpacking" 20
           Scenario.data 500 Scenario.shared 8).
  reflexivity.
Defined.

(** C8 as the specification states it fails: the comparisons are made on
    the rounded figure.  With a limit of 1 GB and one MB more than that
    below the watched path, the byte total is above the limit, the figure
    compared is 1.00, and the pre-flight check passes: the child is
    started and the extraction succeeds. *)
Lemma preflight_compares_rounded_figure :
  fst (check_available_node_space Scenario.configs 1 Scenario.just_over) = Returns 1%Q /\
  (1 < exact_gb Scenario.data (w_fs Scenario.just_over))%Q /\
  usage_gb Scenario.data (w_fs Scenario.just_over) = Qmake 100 100 /\
  fst Scenario.just_over_run = Returns tt /\
  nth_error (w_procs (snd Scenario.just_over_run)) 0 = Some Scenario.collected.
Proof.
  repeat split; try reflexivity.
Defined.

Lemma quota_comparisons_use_rounded_usage_witness :
  w_df Scenario.just_over = Readable 100 /\
  (forall folder,
      fst (get_disk_usage folder Scenario.just_over)
      = Returns (py_round2 (exact_gb folder (w_fs Scenario.just_over)))) /\
  (exists L,
      fst (check_available_node_space Scenario.configs 1 Scenario.just_over) = Returns L /\
      (L == resolve_spec (inject_Z 1)
              (py_round2 (exact_gb (BASE_PATH Scenario.configs) (w_fs Scenario.just_over)))
              (inject_Z (Z.max (100 - 3) 0)))%Q /\
      (fst Scenario.just_over_run = Raises (DiskSpaceExceeded BeforeStart)
       <-> (L < py_round2 (exact_gb Scenario.data (w_fs Scenario.just_over)))%Q)) /\
  (forall tid,
      stop_thread (monitor_disk_space tid Scenario.just_over) =
      stop_thread Scenario.just_over ||
      match nth_error (w_threads Scenario.just_over) tid with
      | Some m => m_alive m && (m_wake m <=? w_clock Scenario.just_over)
                  && Qle_bool (m_limit m)
                       (py_round2 (exact_gb (m_path m) (w_fs Scenario.just_over)))
      | None => false
      end).
Proof.
  split; [reflexivity|].
  apply (quota_comparisons_use_rounded_usage Scenario.configs Scenario.tar "unpacking" 1
           Scenario.data 500 Scenario.just_over 100).
  reflexivity.
Defined.

Lemma stale_flag_fails_every_later_run_witness :
  stop_thread Scenario.after_breach = true /\
  nth_error (w_procs (snd Scenario.second_run)) (List.length (w_procs Scenario.after_breach))
    = Some Scenario.collected /\
  exits_in_time (List.length (w_procs Scenario.after_breach)) 500
                (w_tape Scenario.after_breach) = true /\
  stop_thread (env_run [Tick; MonitorWake 1] Scenario.after_breach) = true /\
  stop_thread (snd Scenario.second_run) = true /\
  fst Scenario.second_run = Raises (DiskSpaceExceeded DuringRun).
Proof.
  split; [reflexivity|]. split; [reflexivity|]. split; [reflexivity|].
  destruct (stale_flag_fails_every_later_run Scenario.configs Scenario.after_breach eq_refl)
    as (Henv & _ & _ & _ & Hrun).
  split; [apply Henv|].
  destruct (Hrun Scenario.tar "unpacking" 20 Scenario.data 500) as (Hflag & Hfail).
  split; [exact Hflag|].
  apply (Hfail Scenario.collected); reflexivity.
Defined.

Lemma quota_boundary_asymmetric_witness :
  fst (check_available_node_space Scenario.configs 20 Scenario.at_limit) = Returns 20%Q /\
  (usage_gb Scenario.data (w_fs Scenario.at_limit) == 20)%Q /\
  w_programs Scenario.at_limit Scenario.tar = Some (mkProgram false) /\
  nth_error (w_threads Scenario.first_sample) (List.length (w_threads Scenario.at_limit))
    = Some (mkMonitor 20 Scenario.data (w_clock Scenario.at_limit + 3) true) /\
  w_clock Scenario.at_limit + 3 <= w_clock Scenario.first_sample /\
  (usage_gb Scenario.data (w_fs Scenario.first_sample) == 20)%Q /\
  (exists p m,
      nth_error (w_procs (snd Scenario.at_limit_run)) (List.length (w_procs Scenario.at_limit))
        = Some p /\
      p_argv p = Scenario.tar /\
      nth_error (w_threads (snd Scenario.at_limit_run))
                (List.length (w_threads Scenario.at_limit)) = Some m /\
      m_limit m = 20%Q /\ m_path m = Scenario.data) /\
  stop_thread (monitor_disk_space (List.length (w_threads Scenario.at_limit))
                 Scenario.first_sample) = true /\
  option_map m_alive
    (nth_error (w_threads (monitor_disk_space (List.length (w_threads Scenario.at_limit))
                             Scenario.first_sample))
               (List.length (w_threads Scenario.at_limit))) = Some false.
Proof.
  split; [reflexivity|]. split; [reflexivity|]. split; [reflexivity|].
  split; [reflexivity|]. split; [now vm_compute|]. split; [reflexivity|].
  destruct (quota_boundary_asymmetric Scenario.configs Scenario.tar "unpacking" 20
              Scenario.data 500 Scenario.at_limit 20%Q (mkProgram false))
    as (Hlaunch & Hsample); try reflexivity.
  split; [exact Hlaunch|].
  apply Hsample; [reflexivity|now vm_compute|reflexivity].
Defined.

(** * Further properties of the module *)

(** ** The rounding of [get_disk_usage] *)

Lemma round_half_even_error (x : Q) :
  (inject_Z (round_half_even x) - (1 # 2) <= x)%Q /\
  (x <= inject_Z (round_half_even x) + (1 # 2))%Q.
Proof.
  destruct x as [n d]. unfold round_half_even. cbn [Qnum Qden].
  pose proof (Z.div_mod n (Zpos d)) as Hdm.
  pose proof (Z.mod_pos_bound n (Zpos d)) as Hr.
  assert (Hd : 0 < Zpos d) by reflexivity.
  specialize (Hdm ltac:(lia)). specialize (Hr Hd).
  set (q := n / Zpos d) in *. set (r := n mod Zpos d) in *.
  destruct (Z.compare_spec (2 * r) (Zpos d)) as [He|Hl|Hg];
    [destruct (Z.even q)| |];
    unfold Qle, Qminus, Qplus, Qopp, inject_Z; cbn [Qnum Qden];
    rewrite ?Pos2Z.inj_mul; split; nia.
Qed.



(** X1.  The figure [get_disk_usage] returns is within half a hundredth of
    a GB of the byte total: the rounding loses at most 0.005 GB. *)
Theorem usage_gb_within_half_a_hundredth (folder : Path) (fs : FileTree) :
  (exact_gb folder fs - (1 # 200) <= usage_gb folder fs)%Q /\
  (usage_gb folder fs <= exact_gb folder fs + (1 # 200))%Q.
Proof.
  unfold usage_gb, py_round2.
  destruct (round_half_even_error (exact_gb folder fs * inject_Z 100)) as (Hlo & Hhi).
  set (k := round_half_even (exact_gb folder fs * inject_Z 100)) in *.
  assert (Hk : (Qmake k 100 == inject_Z k * (1 # 100))%Q).
  { unfold Qeq, Qmult, inject_Z. cbn [Qnum Qden]. lia. }
  rewrite Hk. change (inject_Z 100) with (100 # 1)%Q in Hlo, Hhi. split; lra.
Qed.

(** ** Folders inside folders *)


Lemma total_bytes_nonnegative (folder : Path) (fs : FileTree) :
  sizes_nonnegative fs -> 0 <= total_bytes folder fs.
Proof.
  unfold total_bytes, rglob. induction 1 as [|f fs Hf Hfs IH]; cbn; [lia|].
  destruct (is_below folder (e_path f)); cbn; [|exact IH].
  destruct (e_is_file f); cbn; lia.
Qed.



(** ** The resolver and the pre-flight check *)

(** X3.  [check_available_node_space] only ever reduces the limit, and
    never below what [configs.BASE_PATH] holds already; it changes nothing
    in the process but what is printed. *)
Theorem check_available_node_space_only_reduces
    (configs : Configs) (limit_gb : Z) (w : World) (F : Z) :
  w_df w = Readable F ->
  exists L out,
    check_available_node_space configs limit_gb w = (Returns L, set_out out w) /\
    (L <= inject_Z limit_gb)%Q /\
    (L = inject_Z limit_gb \/ (usage_gb (BASE_PATH configs) (w_fs w) <= L)%Q).
Proof.
  intro Hdf.
  destruct (check_available_node_space_resolves configs limit_gb w F Hdf)
    as (L & HL & _ & Hkeep & Hshrink).
  assert (Havail : (0 <= inject_Z (Z.max (F - 3) 0))%Q)
    by (rewrite <- (Zle_Qle 0); lia).
  assert (Hsnd : exists out,
             snd (check_available_node_space configs limit_gb w) = set_out out w).
  { unfold check_available_node_space, get_disk_usage, emit, bind, ret, raise, gets, modify.
    rewrite Hdf. simp_world.
    match goal with |- context [Qlt_bool ?a ?b] => destruct (Qlt_bool a b) end; simp_world.
    - exists (w_out w). destruct w; reflexivity.
    - eexists. reflexivity. }
  destruct Hsnd as (out & Hsnd).
  exists L, out. split.
  - rewrite (surjective_pairing (check_available_node_space configs limit_gb w)).
    rewrite HL, Hsnd. reflexivity.
  - destruct (Qlt_le_dec (inject_Z limit_gb - usage_gb (BASE_PATH configs) (w_fs w))
                         (inject_Z (Z.max (F - 3) 0))) as [Hlt|Hle].
    + rewrite (Hkeep Hlt). split; [apply Qle_refl|now left].
    + specialize (Hshrink Hle). split; [rewrite Hshrink; lra|].
      right. rewrite Hshrink. lra.
Qed.

(** X4.  When the free space of the node cannot be read, [run_subprocess]
    raises [HTTPException] with the message of the ValueError before
    anything is started: no thread, no child, no event consumed. *)
Theorem unreadable_node_space_aborts_before_launch
    (configs : Configs) (command : list string) (process_message : string)
    (limit_gb : Z) (path_to_check : Path) (timeout : Z) (w : World) (message : string) :
  w_df w = Unreadable message ->
  let r := run_subprocess configs command process_message limit_gb path_to_check timeout w in
  fst r = Raises (HTTPException message) /\
  w_procs (snd r) = w_procs w /\ w_threads (snd r) = w_threads w /\
  w_tape (snd r) = w_tape w /\ w_clock (snd r) = w_clock w /\
  stop_thread (snd r) = stop_thread w.
Proof.
  intros Hdf r. subst r. unfold_run. rewrite Hdf. simp_world. repeat split.
Qed.

(** X5.  When the command cannot be executed, [run_subprocess] raises the
    OSError of [Popen] with no child, and leaves behind the monitor thread
    it had started already, alive and asleep. *)
Theorem popen_failure_leaves_monitor_thread
    (configs : Configs) (command : list string) (process_message : string)
    (limit_gb : Z) (path_to_check : Path) (timeout : Z) (w : World) (L : Q) :
  fst (check_available_node_space configs limit_gb w) = Returns L ->
  (usage_gb path_to_check (w_fs w) <= L)%Q ->
  w_programs w command = None ->
  let r := run_subprocess configs command process_message limit_gb path_to_check timeout w in
  fst r = Raises OSError /\
  w_procs (snd r) = w_procs w /\
  w_threads (snd r) =
    (w_threads w ++ [mkMonitor L path_to_check (w_clock w + 3) true])%list /\
  stop_thread (snd r) = stop_thread w.
Proof.
  intros HL Hpre Hprog r.
  pose proof (run_subprocess_not_launched configs command process_message limit_gb
                path_to_check timeout w) as H.
  cbv zeta in H. fold r in H. rewrite HL in H.
  apply Qlt_bool_false_iff in Hpre. rewrite Hpre, Hprog in H. exact H.
Qed.


(** ** The outcome of an invocation *)

Ltac finish_outcome command prog :=
  match goal with
  | |- context [wait_events ?a ?b ?c ?W] =>
      let Hchild := fresh "Hchild" in
      let rc := fresh "return_code" in
      let w2 := fresh "w2" in
      let p := fresh "p" in
      let Hp := fresh "Hp" in
      let Hargv := fresh "Hargv" in
      assert (Hchild : has_child a
                (mkProc command Running EmptyString (prog_ignores_sigterm prog) false)
                (snd (wait_events a b c W)))
        by (apply wait_events_has_child; eexists;
            split; [simp_world; apply nth_error_snoc|repeat split; reflexivity]);
      destruct (wait_events a b c W) as [[rc|] w2];
      simp_world;
      [ destruct (stop_thread w2); simp_world;
        [|destruct (rc =? 0); simp_world];
        (split; [reflexivity|]);
        try (unfold terminated; simp_world; eexists; reflexivity);
        eexists; reflexivity
      | destruct Hchild as (p & Hp & Hargv & _);
        cbn [snd] in Hp; rewrite Hp; rewrite Hargv;
        split; [reflexivity|unfold terminated; simp_world; eexists; reflexivity] ]
  end.

(** The four ways out of [run_subprocess] once the child is started, with
    the world each of them leaves. *)
Lemma run_subprocess_outcome (configs : Configs) (command : list string)
    (process_message : string) (limit_gb : Z) (path_to_check : Path) (timeout : Z)
    (w : World) (L : Q) (prog : Program) :
  fst (check_available_node_space configs limit_gb w) = Returns L ->
  Qlt_bool L (usage_gb path_to_check (w_fs w)) = false ->
  w_programs w command = Some prog ->
  let r := run_subprocess configs command process_message limit_gb path_to_check timeout w in
  let pid := List.length (w_procs w) in
  exists w1, launched w w1 command prog L path_to_check /\
    match wait_events pid (w_clock w + timeout) (w_tape w) w1 with
    | (None, w2) =>
        fst r = Raises (TimeoutExpired command timeout) /\ terminated pid w2 (snd r)
    | (Some return_code, w2) =>
        if stop_thread w2 then
          fst r = Raises (DiskSpaceExceeded DuringRun) /\ terminated pid w2 (snd r)
        else if return_code =? 0 then
          fst r = Returns tt /\ exists out, snd r = set_out out w2
        else
          fst r = Raises (HTTPException (stderr_of pid w2)) /\ terminated pid w2 (snd r)
    end.
Proof.
  intros HL Hpre Hprog r pid. subst r pid. revert HL.
  unfold stderr_of. unfold_run.
  destruct (w_df w) as [F|message]; simp_world; [|discriminate].
  match goal with |- context [Qlt_bool ?a ?b] => destruct (Qlt_bool a b) eqn:E end;
    simp_world; intros [= <-]; rewrite Hpre; simp_world; rewrite Hprog; simp_world.
  - match goal with
    | |- context [wait_events (Datatypes.length (w_procs w)) _ _ ?W] => exists W
    end.
    split; [unfold launched; simp_world; repeat split; reflexivity|].
    finish_outcome command prog.
  - match goal with
    | |- context [wait_events (Datatypes.length (w_procs w)) _ _ ?W] => exists W
    end.
    split; [unfold launched; simp_world; repeat split; reflexivity|].
    finish_outcome command prog.
Qed.

(** A normal return means the invocation got as far as the child. *)
Lemma run_subprocess_returns (configs : Configs) (command : list string)
    (process_message : string) (limit_gb : Z) (path_to_check : Path) (timeout : Z)
    (w : World) :
  fst (run_subprocess configs command process_message limit_gb path_to_check timeout w)
    = Returns tt ->
  exists L prog,
    fst (check_available_node_space configs limit_gb w) = Returns L /\
    Qlt_bool L (usage_gb path_to_check (w_fs w)) = false /\
    w_programs w command = Some prog.
Proof.
  intro Hret.
  pose proof (run_subprocess_not_launched configs command process_message limit_gb
                path_to_check timeout w) as H.
  cbv zeta in H. rewrite Hret in H.
  destruct (fst (check_available_node_space configs limit_gb w)) as [L|e];
    [|destruct H; discriminate].
  destruct (Qlt_bool L (usage_gb path_to_check (w_fs w))) eqn:Hpre;
    [destruct H; discriminate|].
  destruct (w_programs w command) as [prog|] eqn:Hprog; [|destruct H; discriminate].
  exists L, prog. repeat split; assumption.
Qed.



(** ** Time *)

Lemma env_step_clock (ev : Event) (w : World) :
  w_clock (env_step ev w) = match ev with Tick => w_clock w + 1 | _ => w_clock w end.
Proof.
  destruct ev; cbn [env_step]; try reflexivity.
  now destruct (monitor_disk_space_frame tid w) as (_ & _ & _ & -> & _).
Qed.

(** The wait ends between the moment it begins and the deadline. *)
Lemma wait_events_clock (pid : nat) (deadline : Z) (tape : list Event) :
  forall w, w_clock w <= deadline ->
            w_clock w <= w_clock (snd (wait_events pid deadline tape w)) <= deadline.
Proof.
  induction tape as [|ev tape IH]; intros w Hle; cbn [wait_events];
    destruct (exit_code pid w); cbn [snd reap set_tape set_procs w_clock]; try lia;
    destruct (Z.leb_spec deadline (w_clock w)); cbn [snd set_tape set_clock w_clock];
    try lia.
  assert (Hstep : w_clock w <= w_clock (env_step ev w) <= deadline)
    by (rewrite env_step_clock; destruct ev; lia).
  specialize (IH (env_step ev w) (proj2 Hstep)). lia.
Qed.

(** X9.  [run_subprocess] blocks for [timeout] seconds at most: the clock
    is not put back, and it is not put forward beyond the timeout. *)
Theorem run_subprocess_returns_within_timeout
    (configs : Configs) (command : list string) (process_message : string)
    (limit_gb : Z) (path_to_check : Path) (timeout : Z) (w : World) :
  0 <= timeout ->
  let r := run_subprocess configs command process_message limit_gb path_to_check timeout w in
  w_clock w <= w_clock (snd r) <= w_clock w + timeout.
Proof.
  intros Ht r. subst r. unfold_run.
  destruct (w_df w) as [F|message]; simp_world; [|lia].
  repeat (match goal with
          | |- context [Qlt_bool ?a ?b] => destruct (Qlt_bool a b); simp_world
          end); try lia.
  all: destruct (w_programs w command) as [prog|]; simp_world; try lia.
  all: match goal with
       | |- context [wait_events ?a ?b ?c ?W] =>
           pose proof (wait_events_clock a b c W) as Hc;
           destruct (wait_events a b c W) as [[rc|] w2]
       end;
    cbn [fst snd w_fs w_df w_programs w_clock w_tape stop_thread w_threads w_procs w_out
         set_fs set_df set_clock set_tape set_stop set_threads set_procs set_out] in Hc;
    specialize (Hc ltac:(lia));
    simp_world; try lia.
  all: destruct (stop_thread w2); simp_world; try lia.
  all: destruct (rc =? 0); simp_world; lia.
Qed.



(** ** What an invocation leaves behind *)

(** A normal return leaves the flag unset. *)
Lemma run_subprocess_returns_unflagged (configs : Configs) (command : list string)
    (process_message : string) (limit_gb : Z) (path_to_check : Path) (timeout : Z)
    (w : World) :
  let r := run_subprocess configs command process_message limit_gb path_to_check timeout w in
  fst r = Returns tt -> stop_thread (snd r) = false.
Proof.
  intros r Hret.
  destruct (run_subprocess_returns configs command process_message limit_gb
              path_to_check timeout w Hret) as (L & prog & HL & Hpre & Hprog).
  destruct (run_subprocess_outcome configs command process_message limit_gb
              path_to_check timeout w L prog HL Hpre Hprog) as (w1 & _ & Hrun).
  fold r in Hrun.
  destruct (wait_events _ _ _ w1) as [[rc|] w2]; [|destruct Hrun; congruence].
  destruct (stop_thread w2) eqn:Hflag; [destruct Hrun; congruence|].
  destruct (rc =? 0); [|destruct Hrun; congruence].
  destruct Hrun as (_ & out & ->). exact Hflag.
Qed.





(** ** [extract_zst] *)

Section ExtractZstProperties.

Context (configs : Configs) (data_configs : DataConfigs) (removable : Entry -> bool).

Lemma extract_zst_loop_cons (zst_path : Path) (rest : list Path) (w : World) :
  extract_zst_loop configs data_configs removable (zst_path :: rest) w =
  match unpack configs data_configs zst_path w with
  | (Returns _, w1) =>
      match cleanup data_configs removable zst_path w1 with
      | (Returns _, w2) => extract_zst_loop configs data_configs removable rest w2
      | (Raises e, w2) => (Raises e, w2)
      end
  | (Raises e, w1) => (Raises e, w1)
  end.
Proof.
  cbn [extract_zst_loop]. unfold bind.
  destruct (unpack configs data_configs zst_path w) as [[[]|e] w1]; reflexivity.
Qed.


Lemma extract_zst_loop_app (done rest : list Path) (w : World) :
  extract_zst_loop configs data_configs removable (done ++ rest) w =
  match extract_zst_loop configs data_configs removable done w with
  | (Returns _, w1) => extract_zst_loop configs data_configs removable rest w1
  | (Raises e, w1) => (Raises e, w1)
  end.
Proof.
  revert w. induction done as [|p done IH]; intro w.
  - reflexivity.
  - cbn [app]. rewrite !extract_zst_loop_cons.
    destruct (unpack configs data_configs p w) as [[[]|e] w1]; [|reflexivity].
    destruct (cleanup data_configs removable p w1) as [[[]|e] w2]; [|reflexivity].
    apply IH.
Qed.

(** X11.  [extract_zst] stops at the first archive whose extraction fails:
    it raises the exception of that [run_subprocess] and leaves the process
    as that call left it, so that this archive is not removed and the
    archives after it are not touched. *)
Theorem extract_zst_stops_at_first_failure
    (done : list Path) (zst_path : Path) (rest : list Path) (w w1 : World) (e : Exn) :
  extract_zst_loop configs data_configs removable done w = (Returns tt, w1) ->
  fst (unpack configs data_configs zst_path w1) = Raises e ->
  extract_zst_loop configs data_configs removable (done ++ zst_path :: rest) w
  = (Raises e, snd (unpack configs data_configs zst_path w1)).
Proof.
  intros Hdone Hfail. rewrite extract_zst_loop_app, Hdone, extract_zst_loop_cons.
  destruct (unpack configs data_configs zst_path w1) as [[[]|e'] w2];
    cbn in Hfail; [discriminate|]. now injection Hfail as ->.
Qed.

(** X12.  Once the flag is set [extract_zst] extracts nothing any more: with
    at least one archive to go through it raises on the first one, and
    leaves the process as the [run_subprocess] of that archive left it. *)
Theorem extract_zst_blocked_once_flag_is_set
    (zst_path : Path) (rest : list Path) (w : World) :
  stop_thread w = true ->
  exists e,
    extract_zst configs data_configs removable (zst_path :: rest) w
    = (Raises e,
       snd (unpack configs data_configs zst_path
              (snd (log_disk_usage configs "Begin extracting .tar.zst files" w)))).
Proof.
  intro Hset. unfold extract_zst, bind.
  destruct (log_disk_usage configs "Begin extracting .tar.zst files" w) as [[[]|e0] w0] eqn:Hlog.
  2: { unfold log_disk_usage, get_disk_usage, emit, bind, gets, modify in Hlog.
       discriminate. }
  assert (Hset0 : stop_thread w0 = true).
  { unfold log_disk_usage, get_disk_usage, emit, bind, gets, modify in Hlog.
    injection Hlog as <-. exact Hset. }
  cbn [snd]. rewrite extract_zst_loop_cons.
  pose proof (run_subprocess_returns_unflagged configs (tar_command data_configs zst_path)
                ("unpacking '" ++ path_name zst_path ++ "'")
                (DATA_LIMIT_GB data_configs) (DATA_PATH data_configs) default_timeout w0)
    as Hunflag.
  pose proof (run_subprocess_keeps_flag configs (tar_command data_configs zst_path)
                ("unpacking '" ++ path_name zst_path ++ "'")
                (DATA_LIMIT_GB data_configs) (DATA_PATH data_configs) default_timeout w0
                Hset0) as Hkeeps.
  cbv zeta in Hunflag. fold (unpack configs data_configs zst_path) in Hunflag, Hkeeps.
  destruct (unpack configs data_configs zst_path w0) as [[[]|e] w1].
  - cbn [fst snd] in Hunflag, Hkeeps. specialize (Hunflag eq_refl). congruence.
  - exists e. reflexivity.
Qed.




(** X14.  After an extraction that returned, an archive outside
    [configs.DATA_PATH] is left where it is; an archive below it is
    removed, and nothing else is; and if that archive is no longer there
    [extract_zst] raises the OSError of [unlink] and goes no further. *)
Theorem extract_zst_removes_only_archives_in_data_path
    (zst_path : Path) (rest : list Path) (w w1 : World) :
  unpack configs data_configs zst_path w = (Returns tt, w1) ->
  (is_below (DATA_PATH data_configs) zst_path = false ->
   extract_zst_loop configs data_configs removable (zst_path :: rest) w
   = extract_zst_loop configs data_configs removable rest w1) /\
  (is_below (DATA_PATH data_configs) zst_path = true ->
   entries_at zst_path (w_fs w1) = [] ->
   fst (extract_zst_loop configs data_configs removable (zst_path :: rest) w)
     = Raises OSError /\
   w_fs (snd (extract_zst_loop configs data_configs removable (zst_path :: rest) w))
     = w_fs w1) /\
  (is_below (DATA_PATH data_configs) zst_path = true ->
   forall f others,
     entries_at zst_path (w_fs w1) = f :: others -> removable f = true ->
     exists w2,
       extract_zst_loop configs data_configs removable (zst_path :: rest) w
       = extract_zst_loop configs data_configs removable rest w2 /\
       entries_at zst_path (w_fs w2) = [] /\
       forall g, path_eqb (e_path g) zst_path = false ->
                 (In g (w_fs w2) <-> In g (w_fs w1))).
Proof.
  intro Hunpack. rewrite extract_zst_loop_cons, Hunpack.
  unfold cleanup, unlink, emit, modify, bind, ret. split; [|split].
  - intros ->. reflexivity.
  - intros -> Hgone. simp_world. rewrite Hgone. simp_world. split; reflexivity.
  - intros -> f others Hthere Hrem. simp_world. rewrite Hthere, Hrem.
    eexists. split; [reflexivity|]. simp_world. split.
    + unfold entries_at. clear. induction (w_fs w1) as [|g fs IH]; [reflexivity|].
      cbn [filter]. destruct (path_eqb (e_path g) zst_path) eqn:E; cbn [negb filter].
      * exact IH.
      * rewrite E. exact IH.
    + intros g Hg. rewrite filter_In, Hg. cbn. tauto.
Qed.

End ExtractZstProperties.

(** ** [ls_folders] *)

Section LsFoldersProperties.

Context (rglob_match : string -> Path -> bool).

(** X15.  [ls_folders] gives its folders in ascending order, each of them
    once, however many matching entries a folder holds. *)
Theorem ls_folders_sorted_without_duplicates
    (directory : Path) (pattern : string) (w : World) :
  exists folders,
    fst (ls_folders rglob_match directory pattern w) = Returns folders /\
    LocallySorted (fun a b => String.leb a b = true) folders /\
    NoDup folders.
Proof.
  unfold ls_folders, emit, modify, gets, bind. simp_world.
  eexists. split; [reflexivity|]. split.
  - apply StringSort.LocallySorted_sort.
  - unfold py_sorted. eapply Permutation_NoDup; [apply StringSort.Permuted_sort|].
    apply NoDup_nodup.
Qed.

(** X16.  A folder is listed by [ls_folders] exactly when an entry below
    [directory] that matches the pattern has it as its parent. *)
Theorem ls_folders_lists_parents_of_matches
    (directory : Path) (pattern : string) (w : World) (folder : string) :
  (exists folders,
      fst (ls_folders rglob_match directory pattern w) = Returns folders /\
      In folder folders)
  <-> exists d, In d (w_fs w) /\
                is_below directory (e_path d) = true /\
                rglob_match pattern (skipn (List.length directory) (e_path d)) = true /\
                path_str (path_parent (e_path d)) = folder.
Proof.
  unfold ls_folders, emit, modify, gets, bind. simp_world.
  split.
  - intros (folders & [= <-] & Hin).
    unfold py_sorted, py_set in Hin.
    apply (Permutation_in _ (Permutation_sym (StringSort.Permuted_sort _))) in Hin.
    apply nodup_In, in_map_iff in Hin. destruct Hin as (d & Hstr & Hd).
    apply filter_In in Hd. destruct Hd as (Hd & Hm).
    apply andb_true_iff in Hm. exists d. tauto.
  - intros (d & Hd & Hb & Hm & Hstr).
    eexists. split; [reflexivity|].
    unfold py_sorted, py_set.
    apply (Permutation_in _ (StringSort.Permuted_sort _)).
    apply nodup_In, in_map_iff. exists d. split; [exact Hstr|].
    apply filter_In. rewrite Hb, Hm. auto.
Qed.

End LsFoldersProperties.

(** ** [_fields_to_dict] *)

Section FieldsToDictProperties.

Context (py_format : PyValue -> string).

Lemma dict_set_keys_new {A} (key : string) (x : A) (d : Dict A) :
  ~ In key (map fst d) -> map fst (dict_set key x d) = (map fst d ++ [key])%list.
Proof.
  induction d as [|[k y] d IH]; cbn; intro Hnew; [reflexivity|].
  destruct (String.eqb_spec k key) as [->|Hne]; [tauto|].
  cbn. f_equal. apply IH. tauto.
Qed.

Lemma dict_get_set_same {A} (key : string) (x : A) (d : Dict A) :
  dict_get key (dict_set key x d) = Some x.
Proof.
  induction d as [|[k y] d IH]; cbn.
  - now rewrite String.eqb_refl.
  - destruct (String.eqb_spec k key) as [->|Hne]; cbn.
    + now rewrite String.eqb_refl.
    + destruct (String.eqb_spec k key); [contradiction|exact IH].
Qed.

Lemma dict_get_set_other {A} (key key' : string) (x : A) (d : Dict A) :
  key <> key' -> dict_get key' (dict_set key x d) = dict_get key' d.
Proof.
  intro Hne. induction d as [|[k y] d IH]; cbn.
  - destruct (String.eqb_spec key key'); [contradiction|reflexivity].
  - destruct (String.eqb_spec k key) as [->|Hk]; cbn.
    + destruct (String.eqb_spec key key'); [contradiction|reflexivity].
    + destruct (String.eqb_spec k key'); [reflexivity|exact IH].
Qed.

Lemma fields_to_dict_loop_returns (items : list (string * Field)) :
  forall dict_out out,
    NoDup (map fst dict_out ++ map fst items) ->
    fields_to_dict_loop py_format items dict_out = inr out ->
    map fst out = (map fst dict_out ++ map fst items)%list /\
    (forall k v, In (k, v) items ->
                 exists param, field_param py_format v = inr param /\
                               dict_get k out = Some param) /\
    (forall k, ~ In k (map fst items) -> dict_get k out = dict_get k dict_out).
Proof.
  induction items as [|[k v] rest IH]; intros dict_out out Hnd Hrun.
  - cbn in Hrun. injection Hrun as <-. cbn. rewrite app_nil_r.
    split; [reflexivity|]. split; [intros ? ? []|reflexivity].
  - cbn [fields_to_dict_loop] in Hrun. cbn [map fst] in Hnd.
    destruct (field_param py_format v) as [key|param] eqn:Hparam; [discriminate|].
    assert (Hnew : ~ In k (map fst dict_out)).
    { intro Hin. apply NoDup_remove_2 in Hnd. apply Hnd.
      apply in_or_app. now left. }
    assert (Hrest : ~ In k (map fst rest)).
    { intro Hin. apply NoDup_remove_2 in Hnd. apply Hnd.
      apply in_or_app. now right. }
    pose proof (dict_set_keys_new k param dict_out Hnew) as Hkeys.
    apply IH in Hrun.
    2:{ rewrite Hkeys, <- app_assoc. exact Hnd. }
    destruct Hrun as (Hout & Hget & Hold).
    split; [|split].
    + rewrite Hout, Hkeys, <- app_assoc. reflexivity.
    + intros k' v' [Heq|Hin].
      * injection Heq as <- <-. exists param. split; [exact Hparam|].
        rewrite (Hold k Hrest). apply dict_get_set_same.
      * apply Hget. exact Hin.
    + intros k' Hk'. cbn [map fst In] in Hk'.
      rewrite Hold by tauto. apply dict_get_set_other. tauto.
Qed.

Lemma field_param_raises (v : Field) (key : string) :
  field_param py_format v = inl key <->
  key = "description" /\ dict_get "description" (f_metadata v) = None.
Proof.
  unfold field_param.
  destruct (dict_get "description" (f_metadata v)) as [h|].
  - split; [discriminate|]. intros [_ H]. discriminate.
  - split; [intros [= <-]; auto|]. intros [-> _]. reflexivity.
Qed.

Lemma fields_to_dict_loop_raises (items : list (string * Field)) :
  forall dict_out key,
    fields_to_dict_loop py_format items dict_out = inl key <->
    key = "description" /\
    exists k v, In (k, v) items /\ dict_get "description" (f_metadata v) = None.
Proof.
  induction items as [|[k v] rest IH]; intros dict_out key.
  - cbn. split; [discriminate|]. intros (_ & ? & ? & [] & _).
  - cbn [fields_to_dict_loop].
    destruct (field_param py_format v) as [key'|param] eqn:Hparam.
    + apply field_param_raises in Hparam. destruct Hparam as [-> Hnone].
      split.
      * intros [= <-]. split; [reflexivity|]. exists k, v. split; [now left|exact Hnone].
      * intros [-> _]. reflexivity.
    + rewrite IH. split.
      * intros (-> & k' & v' & Hin & Hnone). split; [reflexivity|].
        exists k', v'. split; [now right|exact Hnone].
      * intros (-> & k' & v' & [Heq|Hin] & Hnone).
        -- injection Heq as <- <-.
           assert (Hbad : field_param py_format v = inl "description")
             by (apply field_param_raises; auto).
           congruence.
        -- split; [reflexivity|]. exists k', v'. auto.
Qed.

(** X17.  [_fields_to_dict] fails exactly when one of the fields has no
    "description" in its metadata, and the failure is then the KeyError of
    that key; no other attribute of a field can make it fail. *)
Theorem fields_to_dict_raises_iff_description_missing
    (fields_in : Dict Field) (key : string) :
  _fields_to_dict py_format fields_in = inl key <->
  key = "description" /\
  exists k v, In (k, v) fields_in /\ dict_get "description" (f_metadata v) = None.
Proof. apply fields_to_dict_loop_raises. Qed.

(** X18.  When [_fields_to_dict] returns, the result has the keys of
    [fields_in] in the same order, and under each key the parameters of that
    field: its [missing] value as default, the type of that value,
    [required] (False when the field has no such attribute) and as help the
    description, extended by the choices when the metadata has an "enum". *)
Theorem fields_to_dict_keeps_keys_and_order
    (fields_in : Dict Field) (out : Dict Param) :
  NoDup (map fst fields_in) ->
  _fields_to_dict py_format fields_in = inr out ->
  map fst out = map fst fields_in /\
  forall k v, In (k, v) fields_in ->
    exists description,
      dict_get "description" (f_metadata v) = Some description /\
      dict_get k out =
        Some (mkParam (f_missing v) (py_type (f_missing v))
                      (match f_required v with Some b => b | None => false end)
                      (match dict_get "enum" (f_metadata v) with
                       | Some enum =>
                           PyStr (py_format description ++ ". Choices: " ++ py_format enum)
                       | None => description
                       end)).
Proof.
  intros Hnd Hrun. unfold _fields_to_dict in Hrun.
  apply fields_to_dict_loop_returns in Hrun; [|exact Hnd].
  destruct Hrun as (Hkeys & Hget & _). split; [exact Hkeys|].
  intros k v Hin. destruct (Hget k v Hin) as (param & Hparam & Hout).
  unfold field_param in Hparam.
  destruct (dict_get "description" (f_metadata v)) as [description|]; [|discriminate].
  exists description. split; [reflexivity|].
  injection Hparam as <-. exact Hout.
Qed.

End FieldsToDictProperties.

(** * The further properties on the deployment *)


Lemma check_available_node_space_only_reduces_witness :
  w_df Scenario.shared = Readable 8 /\
  exists L out,
    check_available_node_space Scenario.configs 20 Scenario.shared
    = (Returns L, set_out out Scenario.shared) /\
    (L <= inject_Z 20)%Q /\
    (L = inject_Z 20 \/
     (usage_gb (BASE_PATH Scenario.configs) (w_fs Scenario.shared) <= L)%Q).
Proof.
  split; [reflexivity|].
  apply (check_available_node_space_only_reduces Scenario.configs 20 Scenario.shared 8).
  reflexivity.
Defined.

Lemma unreadable_node_space_aborts_before_launch_witness :
  w_df Archives.terabytes
    = Unreadable "invalid literal for int() with base 10: '1.2T'" /\
  fst (Scenario.run 20 500 Archives.terabytes)
    = Raises (HTTPException "invalid literal for int() with base 10: '1.2T'") /\
  w_procs (snd (Scenario.run 20 500 Archives.terabytes)) = w_procs Archives.terabytes /\
  w_threads (snd (Scenario.run 20 500 Archives.terabytes)) = w_threads Archives.terabytes /\
  w_tape (snd (Scenario.run 20 500 Archives.terabytes)) = w_tape Archives.terabytes /\
  w_clock (snd (Scenario.run 20 500 Archives.terabytes)) = w_clock Archives.terabytes /\
  stop_thread (snd (Scenario.run 20 500 Archives.terabytes))
    = stop_thread Archives.terabytes.
Proof.
  split; [reflexivity|].
  apply (unreadable_node_space_aborts_before_launch Scenario.configs Scenario.tar
           "unpacking" 20 Scenario.data 500 Archives.terabytes
           "invalid literal for int() with base 10: '1.2T'").
  reflexivity.
Defined.

Lemma popen_failure_leaves_monitor_thread_witness :
  fst (check_available_node_space Scenario.configs 20 Archives.no_tar) = Returns 20%Q /\
  (usage_gb Scenario.data (w_fs Archives.no_tar) <= 20)%Q /\
  w_programs Archives.no_tar Scenario.tar = None /\
  fst (Scenario.run 20 500 Archives.no_tar) = Raises OSError /\
  w_procs (snd (Scenario.run 20 500 Archives.no_tar)) = w_procs Archives.no_tar /\
  w_threads (snd (Scenario.run 20 500 Archives.no_tar))
    = (w_threads Archives.no_tar
       ++ [mkMonitor 20 Scenario.data (w_clock Archives.no_tar + 3) true])%list /\
  stop_thread (snd (Scenario.run 20 500 Archives.no_tar)) = stop_thread Archives.no_tar.
Proof.
  split; [reflexivity|]. split; [now vm_compute|]. split; [reflexivity|].
  apply (popen_failure_leaves_monitor_thread Scenario.configs Scenario.tar "unpacking" 20
           Scenario.data 500 Archives.no_tar 20%Q);
    [reflexivity|now vm_compute|reflexivity].
Defined.



Lemma run_subprocess_returns_within_timeout_witness :
  0 <= 5 /\
  w_clock (Scenario.hung true) <= w_clock (snd (Scenario.hung_run true))
    <= w_clock (Scenario.hung true) + 5.
Proof.
  split; [lia|].
  apply (run_subprocess_returns_within_timeout Scenario.configs Scenario.tar "unpacking" 20
           Scenario.data 5 (Scenario.hung true)).
  lia.
Defined.


Lemma extract_zst_stops_at_first_failure_witness :
  Archives.extract_loop [Archives.first] Archives.second_damaged
    = (Returns tt, Archives.first_done) /\
  fst (Archives.unpack_one Archives.second Archives.first_done)
    = Raises (HTTPException "tar: Unexpected EOF in archive") /\
  Archives.extract_loop [Archives.first; Archives.second; Archives.mounted]
                        Archives.second_damaged
  = (Raises (HTTPException "tar: Unexpected EOF in archive"),
     snd (Archives.unpack_one Archives.second Archives.first_done)).
Proof.
  split; [now vm_compute|]. split; [now vm_compute|].
  apply (extract_zst_stops_at_first_failure Scenario.configs Archives.data_configs
           Archives.removable [Archives.first] Archives.second [Archives.mounted]
           Archives.second_damaged Archives.first_done
           (HTTPException "tar: Unexpected EOF in archive"));
    now vm_compute.
Defined.

Lemma extract_zst_blocked_once_flag_is_set_witness :
  stop_thread Scenario.after_breach = true /\
  exists e,
    Archives.extract [Archives.first; Archives.second] Scenario.after_breach
    = (Raises e,
       snd (Archives.unpack_one Archives.first
              (snd (log_disk_usage Scenario.configs "Begin extracting .tar.zst files"
                      Scenario.after_breach)))).
Proof.
  split; [reflexivity|].
  apply (extract_zst_blocked_once_flag_is_set Scenario.configs Archives.data_configs
           Archives.removable Archives.first [Archives.second] Scenario.after_breach).
  reflexivity.
Defined.


Lemma extract_zst_removes_only_archives_in_data_path_witness :
  unpack Scenario.configs Archives.data_configs Archives.first Archives.both_fine
    = (Returns tt, Archives.first_unpacked) /\
  is_below (DATA_PATH Archives.data_configs) Archives.first = true /\
  entries_at Archives.first (w_fs Archives.first_unpacked)
    = [Scenario.file Archives.first Scenario.GiB] /\
  Archives.removable (Scenario.file Archives.first Scenario.GiB) = true /\
  exists w2,
    Archives.extract_loop [Archives.first; Archives.second] Archives.both_fine
    = Archives.extract_loop [Archives.second] w2 /\
    entries_at Archives.first (w_fs w2) = [] /\
    forall g, path_eqb (e_path g) Archives.first = false ->
              (In g (w_fs w2) <-> In g (w_fs Archives.first_unpacked)).
Proof.
  assert (Hunpack : unpack Scenario.configs Archives.data_configs Archives.first
                      Archives.both_fine
                    = (Returns tt, Archives.first_unpacked)) by now vm_compute.
  split; [exact Hunpack|]. split; [reflexivity|].
  split; [now vm_compute|]. split; [reflexivity|].
  destruct (extract_zst_removes_only_archives_in_data_path Scenario.configs
              Archives.data_configs Archives.removable Archives.first [Archives.second]
              Archives.both_fine Archives.first_unpacked Hunpack)
    as (_ & _ & Hremoved).
  apply (Hremoved eq_refl (Scenario.file Archives.first Scenario.GiB) []);
    [now vm_compute|reflexivity].
Defined.

Lemma fields_to_dict_keeps_keys_and_order_witness :
  NoDup (map fst Archives.schema) /\
  _fields_to_dict Archives.format_text Archives.schema = inr Archives.schema_dict /\
  map fst Archives.schema_dict = map fst Archives.schema.
Proof.
  assert (Hkeys : NoDup (map fst Archives.schema)).
  { repeat constructor; cbn; intuition discriminate. }
  split; [exact Hkeys|]. split; [reflexivity|].
  apply (fields_to_dict_keeps_keys_and_order Archives.format_text Archives.schema
           Archives.schema_dict Hkeys).
  reflexivity.
Defined.
